(** * Simple-block-chain: a shallow embedding of [main.py]

    The development follows the source file top-down: the two library
    functions the program leans on ([hashlib.sha256] and [json.dumps]),
    then the classes [Transaction], [Block] and [Blockchain], and finally
    the properties of hashing, proof-of-work, block acceptance and mining. *)

From Stdlib Require Import ZArith List String Ascii Bool Lia DecimalString.
From Stdlib Require Import Permutation Sorted.
From Stdlib Require DecimalPos DecimalZ DecimalFacts.
Import ListNotations.
Open Scope string_scope.
Open Scope list_scope.
Open Scope Z_scope.

(** ** [hashlib.sha256]: FIPS 180-4 on 32-bit words held in [Z] *)

Module SHA256.

Definition word_mask : Z := 0xFFFFFFFF.

(** Addition of two words, wrapping at 2^32. *)
Definition add32 (x y : Z) : Z := Z.land (x + y) word_mask.

Definition rotr (n x : Z) : Z :=
  Z.lor (Z.shiftr x n) (Z.land (Z.shiftl x (32 - n)) word_mask).

Definition Ch (x y z : Z) : Z :=
  Z.lxor (Z.land x y) (Z.land (Z.lxor x word_mask) z).

Definition Maj (x y z : Z) : Z :=
  Z.lxor (Z.lxor (Z.land x y) (Z.land x z)) (Z.land y z).

Definition bsig0 (x : Z) : Z := Z.lxor (Z.lxor (rotr 2 x) (rotr 13 x)) (rotr 22 x).
Definition bsig1 (x : Z) : Z := Z.lxor (Z.lxor (rotr 6 x) (rotr 11 x)) (rotr 25 x).
Definition ssig0 (x : Z) : Z := Z.lxor (Z.lxor (rotr 7 x) (rotr 18 x)) (Z.shiftr x 3).
Definition ssig1 (x : Z) : Z := Z.lxor (Z.lxor (rotr 17 x) (rotr 19 x)) (Z.shiftr x 10).

(** Constant tables are written as in the standard, eight hexadecimal
    digits per word, and read by [hex_words]. *)
Definition hex_value (c : ascii) : option Z :=
  let n := Z.of_N (N_of_ascii c) in
  if (48 <=? n) && (n <=? 57) then Some (n - 48)
  else if (97 <=? n) && (n <=? 102) then Some (n - 87)
  else None.

Fixpoint hex_words_from (s : string) (acc : option Z) : list Z :=
  match s with
  | EmptyString =>
      match acc with
      | Some w => [w]
      | None => []
      end
  | String c rest =>
      match hex_value c, acc with
      | Some d, Some w => hex_words_from rest (Some (16 * w + d))
      | Some d, None => hex_words_from rest (Some d)
      | None, Some w => w :: hex_words_from rest None
      | None, None => hex_words_from rest None
      end
  end.

Definition hex_words (s : string) : list Z := hex_words_from s None.

(** The first 32 bits of the fractional parts of the cube roots of the
    first 64 primes. *)
Definition K256 : list Z :=
  hex_words
    "428a2f98 71374491 b5c0fbcf e9b5dba5 3956c25b 59f111f1 923f82a4 ab1c5ed5
     d807aa98 12835b01 243185be 550c7dc3 72be5d74 80deb1fe 9bdc06a7 c19bf174
     e49b69c1 efbe4786 0fc19dc6 240ca1cc 2de92c6f 4a7484aa 5cb0a9dc 76f988da
     983e5152 a831c66d b00327c8 bf597fc7 c6e00bf3 d5a79147 06ca6351 14292967
     27b70a85 2e1b2138 4d2c6dfc 53380d13 650a7354 766a0abb 81c2c92e 92722c85
     a2bfe8a1 a81a664b c24b8b70 c76c51a3 d192e819 d6990624 f40e3585 106aa070
     19a4c116 1e376c08 2748774c 34b0bcb5 391c0cb3 4ed8aa4a 5b9cca4f 682e6ff3
     748f82ee 78a5636f 84c87814 8cc70208 90befffa a4506ceb bef9a3f7 c67178f2".

(** The first 32 bits of the fractional parts of the square roots of the
    first 8 primes. *)
Definition H0 : list Z :=
  hex_words "6a09e667 bb67ae85 3c6ef372 a54ff53a 510e527f 9b05688c 1f83d9ab 5be0cd19".

(** The eight working variables a..h. *)
Record regs := Regs { ra : Z; rb : Z; rc : Z; rd : Z; re : Z; rf : Z; rg : Z; rh : Z }.

Definition regs_of_list (l : list Z) : regs :=
  Regs (nth 0 l 0) (nth 1 l 0) (nth 2 l 0) (nth 3 l 0)
       (nth 4 l 0) (nth 5 l 0) (nth 6 l 0) (nth 7 l 0).

Definition list_of_regs (r : regs) : list Z :=
  [ra r; rb r; rc r; rd r; re r; rf r; rg r; rh r].

Definition round (r : regs) (k w : Z) : regs :=
  let t1 := add32 (add32 (add32 (add32 (rh r) (bsig1 (re r))) (Ch (re r) (rf r) (rg r))) k) w in
  let t2 := add32 (bsig0 (ra r)) (Maj (ra r) (rb r) (rc r)) in
  Regs (add32 t1 t2) (ra r) (rb r) (rc r) (add32 (rd r) t1) (re r) (rf r) (rg r).

(** The message schedule is kept as a window of the sixteen most recent
    words, oldest first: W[t] is computed from W[t-2], W[t-7], W[t-15]
    and W[t-16]. *)
Definition next_word (win : list Z) : Z :=
  add32 (add32 (add32 (ssig1 (nth 14 win 0)) (nth 9 win 0)) (ssig0 (nth 1 win 0))) (nth 0 win 0).

Fixpoint rounds (ks : list Z) (win : list Z) (r : regs) : regs :=
  match ks with
  | [] => r
  | k :: ks' =>
      let r' := round r k (nth 0 win 0) in
      rounds ks' (tl win ++ [next_word win]) r'
  end.

Definition compress (h : list Z) (block : list Z) : list Z :=
  let r := rounds K256 block (regs_of_list h) in
  map (fun p => add32 (fst p) (snd p)) (combine h (list_of_regs r)).

(** Big-endian packing of bytes into 32-bit words. *)
Fixpoint words_of_bytes (bs : list Z) : list Z :=
  match bs with
  | b0 :: b1 :: b2 :: b3 :: rest =>
      (Z.lor (Z.shiftl b0 24) (Z.lor (Z.shiftl b1 16) (Z.lor (Z.shiftl b2 8) b3)))
        :: words_of_bytes rest
  | _ => []
  end.

Definition bytes_of_word (w : Z) : list Z :=
  [ Z.land (Z.shiftr w 24) 0xFF; Z.land (Z.shiftr w 16) 0xFF;
    Z.land (Z.shiftr w 8) 0xFF; Z.land w 0xFF ].

(** Padding: a 0x80 byte, zero bytes up to 56 mod 64, and the bit length
    of the message as a 64-bit big-endian integer. *)
Definition pad (msg : list Z) : list Z :=
  let len := Z.of_nat (List.length msg) in
  let zeros := Z.to_nat ((55 - len) mod 64) in
  let bits := 8 * len in
  msg ++ [0x80] ++ repeat 0 zeros
      ++ bytes_of_word (Z.land (Z.shiftr bits 32) word_mask)
      ++ bytes_of_word (Z.land bits word_mask).

Fixpoint blocks (n : nat) (ws : list Z) : list (list Z) :=
  match n with
  | O => []
  | S n' =>
      match ws with
      | [] => []
      | _ => firstn 16 ws :: blocks n' (skipn 16 ws)
      end
  end.

Definition digest_bytes (msg : list Z) : list Z :=
  let ws := words_of_bytes (pad msg) in
  flat_map bytes_of_word (fold_left compress (blocks (List.length ws) ws) H0).

Definition hex_digit (n : Z) : ascii :=
  if n <? 10 then ascii_of_N (Z.to_N (48 + n)) else ascii_of_N (Z.to_N (87 + n)).

Fixpoint hex_of_bytes (bs : list Z) : string :=
  match bs with
  | [] => EmptyString
  | b :: rest => String (hex_digit (Z.shiftr b 4)) (String (hex_digit (Z.land b 0xF)) (hex_of_bytes rest))
  end.

(** [str.encode()] on a string all of whose code points are below 128 (the
    output of [json.dumps] with [ensure_ascii]) is one byte per character. *)
Fixpoint encode (s : string) : list Z :=
  match s with
  | EmptyString => []
  | String c rest => Z.of_N (N_of_ascii c) :: encode rest
  end.

(** [sha256(data).hexdigest()] *)
Definition hexdigest (data : list Z) : string := hex_of_bytes (digest_bytes data).

End SHA256.

(** ** [json.dumps]: the part of the encoder the program exercises *)

(** The values that reach the encoder: integers, strings, lists and
    dictionaries with string keys.  A dictionary is kept as its items in
    insertion order.  A character stands for the code point of the same
    number, so the strings of the model are the Python strings whose code
    points are below 256. *)
#[local] Unset Elimination Schemes.
Inductive json : Type :=
| JInt (z : Z)
| JStr (s : string)
| JList (l : list json)
| JDict (d : list (string * json)).
#[local] Set Elimination Schemes.

Module Json.

(** [repr] of a Python [int]. *)
Definition int_repr (z : Z) : string := NilZero.string_of_int (Z.to_int z).

Definition hex4 (n : Z) : string :=
  String (SHA256.hex_digit (Z.land (Z.shiftr n 12) 0xF))
    (String (SHA256.hex_digit (Z.land (Z.shiftr n 8) 0xF))
      (String (SHA256.hex_digit (Z.land (Z.shiftr n 4) 0xF))
        (String (SHA256.hex_digit (Z.land n 0xF)) EmptyString))).

(** One character under [ensure_ascii]: the quote, the backslash and the
    five short escapes, printable ASCII as it is, and a [\uXXXX] escape for
    everything else. *)
Definition escape_char (c : ascii) : string :=
  let n := Z.of_N (N_of_ascii c) in
  if n =? 34 then "\" ++ String c EmptyString
  else if n =? 92 then "\\"
  else if n =? 10 then "\n"
  else if n =? 13 then "\r"
  else if n =? 9 then "\t"
  else if n =? 12 then "\f"
  else if n =? 8 then "\b"
  else if (32 <=? n) && (n <=? 126) then String c EmptyString
  else "\u" ++ hex4 n.

Fixpoint escape (s : string) : string :=
  match s with
  | EmptyString => EmptyString
  | String c rest => escape_char c ++ escape rest
  end.

Definition quote : string := String (ascii_of_N 34) EmptyString.

Definition encode_basestring_ascii (s : string) : string :=
  quote ++ escape s ++ quote.

(** [", ".join(parts)] *)
Fixpoint join (parts : list string) : string :=
  match parts with
  | [] => EmptyString
  | [p] => p
  | p :: rest => p ++ ", " ++ join rest
  end.

(** [sort_keys=True]: the items are ordered by key before they are
    written.  Keys of a dictionary are distinct, so the order never looks
    at the values; the sort is a stable insertion sort on the key. *)
Fixpoint insert_item {A : Type} (kv : string * A) (items : list (string * A))
  : list (string * A) :=
  match items with
  | [] => [kv]
  | kv' :: rest =>
      if String.leb (fst kv) (fst kv') then kv :: items
      else kv' :: insert_item kv rest
  end.

Definition sort_items {A : Type} (items : list (string * A)) : list (string * A) :=
  fold_right insert_item [] items.

Definition item_text (kv : string * string) : string :=
  encode_basestring_ascii (fst kv) ++ ": " ++ snd kv.

(** [json.dumps(v, sort_keys=True)] with the default separators.  The
    values of a dictionary are rendered before its items are sorted, which
    gives the same text as sorting first because the order depends on the
    keys alone. *)
Fixpoint dumps (v : json) : string :=
  match v with
  | JInt z => int_repr z
  | JStr s => encode_basestring_ascii s
  | JList l => "[" ++ join (map dumps l) ++ "]"
  | JDict d =>
      "{" ++ join (map item_text (sort_items (map (fun kv => (fst kv, dumps (snd kv))) d))) ++ "}"
  end.

End Json.

(** ** class [Transaction] *)

Module Transaction.

(** [timestamp] is [str(datetime.now())] at construction; the clock is an
    input of the model. *)
Record t := Make {
  sender : string;
  receiver : string;
  data : string;
  amount : Z;
  timestamp : string
}.

(** [self.__dict__], in the order [__init__] assigns the attributes. *)
Definition dict (tx : t) : list (string * json) :=
  [ ("sender", JStr (sender tx)); ("receiver", JStr (receiver tx));
    ("data", JStr (data tx)); ("amount", JInt (amount tx));
    ("timestamp", JStr (timestamp tx)) ].

(** [json.loads(str(tx))]: [__str__] dumps [__dict__] and the parser reads
    the same dictionary back. *)
Definition loads_str (tx : t) : json := JDict (dict tx).

End Transaction.

(** ** class [Block] *)

(** [hash] is not set by [__init__]; the attribute exists once
    [create_genesis_block] or [add_block] has assigned it. *)
Record Block := MkBlock {
  index : Z;
  transactions : list json;
  timestamp : string;
  previous_hash : json;
  nonce : Z;
  hash : option string
}.

(** [Block(index, transactions, previous_hash, nonce=0)], with the clock
    reading [now] for [str(datetime.now())]. *)
Definition Block_init (now : string) (index : Z) (transactions : list json)
    (previous_hash : json) (nonce : Z) : Block :=
  MkBlock index transactions now previous_hash nonce None.

Definition set_nonce (b : Block) (n : Z) : Block :=
  MkBlock (index b) (transactions b) (timestamp b) (previous_hash b) n (hash b).

Definition set_hash (b : Block) (h : string) : Block :=
  MkBlock (index b) (transactions b) (timestamp b) (previous_hash b) (nonce b) (Some h).

(** [self.__dict__]: the five attributes of [__init__] in assignment
    order, followed by [hash] when it has been assigned. *)
Definition Block_dict (b : Block) : list (string * json) :=
  [ ("index", JInt (index b)); ("transactions", JList (transactions b));
    ("timestamp", JStr (timestamp b)); ("previous_hash", previous_hash b);
    ("nonce", JInt (nonce b)) ]
  ++ match hash b with
     | Some h => [("hash", JStr h)]
     | None => []
     end.

Definition block_string (b : Block) : string := Json.dumps (JDict (Block_dict b)).

Definition compute_hash (b : Block) : string :=
  SHA256.hexdigest (SHA256.encode (block_string b)).

(** ** Outcomes of a call *)

(** A call returns, raises, or is still running when the fuel that bounds
    the [while] loop of [proof_of_work] is spent. *)
Inductive exn := IndexError | AttributeError.

Inductive res (A : Type) : Type :=
| Done (a : A)
| Raise (e : exn)
| OutOfFuel.
Arguments Done {A} a.
Arguments Raise {A} e.
Arguments OutOfFuel {A}.

Definition bind {A B : Type} (m : res A) (k : A -> res B) : res B :=
  match m with
  | Done a => k a
  | Raise e => Raise e
  | OutOfFuel => OutOfFuel
  end.

Declare Scope res_scope.
Delimit Scope res_scope with res.
Notation "x <- m ;; k" := (bind m (fun x => k))
  (at level 100, m at next level, right associativity) : res_scope.
Notation "' p <- m ;; k" := (bind m (fun p => k))
  (at level 100, p pattern, m at next level, right associativity) : res_scope.
Open Scope res_scope.

(** ** class [Blockchain] *)

Record Blockchain := MkChain {
  unconfirmed_transactions : list Transaction.t;
  chain : list Block
}.

(** Number of zeros as prefix for proof-of-work. *)
Definition DIFFICULTY : Z := 3.

(** [s * n] on a string. *)
Fixpoint str_repeat (s : string) (n : nat) : string :=
  match n with
  | O => EmptyString
  | S n' => s ++ str_repeat s n'
  end.

Definition str_mul (s : string) (n : Z) : string := str_repeat s (Z.to_nat n).

(** [s.startswith(p)] *)
Definition startswith (s p : string) : bool := String.prefix p s.

Definition target : string := str_mul "0" DIFFICULTY.

(** [block.hash]: an [AttributeError] while the attribute is not set. *)
Definition get_hash (b : Block) : res string :=
  match hash b with
  | Some h => Done h
  | None => Raise AttributeError
  end.

(** [self.chain[-1]] *)
Definition last_block (bc : Blockchain) : res Block :=
  match chain bc with
  | [] => Raise IndexError
  | b :: rest => Done (last rest b)
  end.

Definition genesis_transactions : list json :=
  [JDict [("transaction", JStr "Genesis Block")]].

Definition create_genesis_block (now : string) (bc : Blockchain) : Blockchain :=
  let genesis_block := Block_init now 0 genesis_transactions (JInt 0) 0 in
  let genesis_block := set_hash genesis_block (compute_hash genesis_block) in
  MkChain (unconfirmed_transactions bc) (chain bc ++ [genesis_block]).

(** [Blockchain()] *)
Definition Blockchain_init (now : string) : Blockchain :=
  create_genesis_block now (MkChain [] []).

(** The [while] loop of [proof_of_work]: [computed_hash] is the hash of
    [block] on entry; each unit of fuel pays for one test of the loop
    condition. *)
Fixpoint pow_loop (fuel : nat) (block : Block) (computed_hash : string)
  : res (string * Block) :=
  match fuel with
  | O => OutOfFuel
  | S fuel' =>
      if negb (startswith computed_hash target) then
        let block := set_nonce block (nonce block + 1) in
        pow_loop fuel' block (compute_hash block)
      else Done (computed_hash, block)
  end.

(** Returns the hash together with the block as the search left it. *)
Definition proof_of_work (fuel : nat) (block : Block) : res (string * Block) :=
  let block := set_nonce block 0 in
  pow_loop fuel block (compute_hash block).

Definition is_valid_proof (block : Block) (block_hash : string) : bool :=
  startswith block_hash target && String.eqb block_hash (compute_hash block).

(** [previous_hash == v] for the string [previous_hash]: a string equals
    only a string with the same characters. *)
Definition str_eq (previous_hash : string) (v : json) : bool :=
  match v with
  | JStr s => String.eqb previous_hash s
  | _ => false
  end.

(** The result is the returned boolean and the chain afterwards; an
    accepted block sits at the end of the chain with [hash] assigned. *)
Definition add_block (bc : Blockchain) (block : Block) (proof : string)
  : res (bool * Blockchain) :=
  tip <- last_block bc ;;
  previous_hash' <- get_hash tip ;;
  if negb (str_eq previous_hash' (previous_hash block)) then Done (false, bc)
  else if negb (is_valid_proof block proof) then Done (false, bc)
  else
    let block := set_hash block proof in
    Done (true, MkChain (unconfirmed_transactions bc) (chain bc ++ [block])).

Definition add_new_transaction (bc : Blockchain) (transaction : Transaction.t) : Blockchain :=
  MkChain (unconfirmed_transactions bc ++ [transaction]) (chain bc).

(** What [mine] returns: [False], or the index of the block it added. *)
Inductive mined := MinedFalse | MinedIndex (i : Z).

(** The body of [mine].  [self.add_block] is looked up on the object at
    the time of the call, so the method it reaches is an argument here:
    [self_add_block] stands for the [add_block] of the class of [self],
    which a subclass may have overridden.  [now] is the clock reading
    taken when the candidate is built. *)
Definition mine_with
    (self_add_block : Blockchain -> Block -> string -> res (bool * Blockchain))
    (fuel : nat) (now : string) (bc : Blockchain) : res (mined * Blockchain) :=
  match unconfirmed_transactions bc with
  | [] => Done (MinedFalse, bc)
  | _ :: _ =>
      last_block' <- last_block bc ;;
      tip_hash <- get_hash last_block' ;;
      let new_block :=
        Block_init now (index last_block' + 1)
                   (map Transaction.loads_str (unconfirmed_transactions bc))
                   (JStr tip_hash) 0 in
      '(proof, new_block) <- proof_of_work fuel new_block ;;
      let bc := MkChain [] (chain bc) in
      '(added, bc) <- self_add_block bc new_block proof ;;
      if added then Done (MinedIndex (index new_block), bc)
      else Done (MinedFalse, bc)
  end.

(** [mine] on an object of the class [Blockchain] itself. *)
Definition mine (fuel : nat) (now : string) (bc : Blockchain) : res (mined * Blockchain) :=
  mine_with add_block fuel now bc.

(** * Vocabulary of the statements *)

(** Number of zero characters at the front of a string. *)
Fixpoint leading_zeros (s : string) : nat :=
  match s with
  | String c rest => if Ascii.eqb c "0" then S (leading_zeros rest) else O
  | EmptyString => O
  end.

(** [n] is the first nonce, counting up from zero, at which the block's
    hash starts with the target prefix. *)
Definition first_nonce (b : Block) (n : Z) : Prop :=
  0 <= n /\
  startswith (compute_hash (set_nonce b n)) target = true /\
  forall m, 0 <= m < n -> startswith (compute_hash (set_nonce b m)) target = false.

(** The chain [add_block] leaves behind when it accepts. *)
Definition accepted (bc : Blockchain) (block : Block) (proof : string) : Blockchain :=
  MkChain (unconfirmed_transactions bc) (chain bc ++ [set_hash block proof]).

(** The block [mine] hands to [proof_of_work]: built on [tip], whose
    stored hash is [tip_hash], from the pool [pool] at clock reading
    [now]. *)
Definition candidate (now : string) (tip : Block) (tip_hash : string)
    (pool : list Transaction.t) : Block :=
  Block_init now (index tip + 1) (map Transaction.loads_str pool) (JStr tip_hash) 0.

(** What [mine] relies on in the method it calls: the pool is left as it
    was found and, when the block is refused, so is the chain.  The
    [add_block] of the class is such a method. *)
Definition keeps_pool
    (self_add_block : Blockchain -> Block -> string -> res (bool * Blockchain)) : Prop :=
  forall (bc : Blockchain) (block : Block) (proof : string) (added : bool) (bc' : Blockchain),
    self_add_block bc block proof = Done (added, bc') ->
    unconfirmed_transactions bc' = unconfirmed_transactions bc /\
    (added = false -> chain bc' = chain bc).

(** The states of a chain made by [Blockchain()] and then driven by
    [add_new_transaction] and by calls of [mine] that return. *)
Inductive reachable : Blockchain -> Prop :=
| reach_new (now : string) : reachable (Blockchain_init now)
| reach_add_new_transaction (bc : Blockchain) (tx : Transaction.t) :
    reachable bc -> reachable (add_new_transaction bc tx)
| reach_mine (bc : Blockchain) (fuel : nat) (now : string) (r : mined) (bc' : Blockchain) :
    reachable bc -> mine fuel now bc = Done (r, bc') -> reachable bc'.

(** The block as it was before [hash] was assigned. *)
Definition clear_hash (b : Block) : Block :=
  MkBlock (index b) (transactions b) (timestamp b) (previous_hash b) (nonce b) None.

(** The stored hash is the hash of the other five attributes. *)
Definition sealed (b : Block) : Prop := hash b = Some (compute_hash (clear_hash b)).

Definition link_ok (prev cur : Block) : Prop :=
  exists h, hash prev = Some h /\ previous_hash cur = JStr h /\ index cur = index prev + 1.

Definition chain_ok (l : list Block) : Prop :=
  Forall sealed l /\
  forall (i : nat) (prev cur : Block),
    nth_error l i = Some prev -> nth_error l (S i) = Some cur -> link_ok prev cur.

(** * Data of the concrete runs

    Clock readings, transactions and the digests they lead to; the
    transactions are those of the demonstration at the end of [main.py]. *)

Definition now0 : string := "2021-03-14 15:09:26.535897".
Definition now1 : string := "2021-03-14 15:09:26.542477".
Definition now2 : string := "2021-03-14 15:09:27.000760".

Definition t1 : Transaction.t :=
  Transaction.Make "Nitin" "somePizzaGuy" "Transfer 8 bitcoins for a simple pizza xD" 8
                   "2021-03-14 15:09:26.535950".
Definition t2 : Transaction.t :=
  Transaction.Make "SomeRandomDude" "somePizzaGuy" "Transfer 80 bitcoins for a simple pizza xD" 80
                   "2021-03-14 15:09:27.000100".

Definition genesis_hash : string :=
  "a0f11851a253e78425b47993b4270f34e426508a37974d93334c10f79d503fd8".
Definition block1_hash : string :=
  "0002bc5a733be01f26c022b28b95760ccfc16062f460c6464f92905150adff91".
Definition block2_hash : string :=
  "000f3fc8531c1812186b6b43023599a0318672411c0b6533cfdaf2173a233338".

Definition genesis0 : Block :=
  MkBlock 0 genesis_transactions now0 (JInt 0) 0 (Some genesis_hash).
Definition block1 : Block :=
  MkBlock 1 [Transaction.loads_str t1] now1 (JStr genesis_hash) 2 (Some block1_hash).
Definition block2 : Block :=
  MkBlock 2 [Transaction.loads_str t2] now2 (JStr block1_hash) 1 (Some block2_hash).

(** [Blockchain()], then [add_new_transaction(t1)], [mine()],
    [add_new_transaction(t2)], [mine()]. *)
Definition chain0 : Blockchain := MkChain [] [genesis0].
Definition pending1 : Blockchain := MkChain [t1] [genesis0].
Definition mined1 : Blockchain := MkChain [] [genesis0; block1].
Definition pending2 : Blockchain := MkChain [t2] [genesis0; block1].
Definition mined2 : Blockchain := MkChain [] [genesis0; block1; block2].

Definition now4 : string := "2021-03-14 15:09:26.659533".
Definition hash4 : string :=
  "00005ee7b4db845a4158256f74bfae6cbf6f7ba9b69c9588fef3060b66d92750".

(** Candidates as [mine] builds them on the genesis block from the pool
    [[t1]], at the clock readings [now1] and [now4]. *)
Definition cand1 : Block := candidate now1 genesis0 genesis_hash [t1].
Definition cand4 : Block := candidate now4 genesis0 genesis_hash [t1].

(** An [add_block] as a subclass could write it: the proof is asked for
    one zero more before the method of [Blockchain] sees the block. *)
Definition add_block_four_zeros (bc : Blockchain) (block : Block) (proof : string)
  : res (bool * Blockchain) :=
  if startswith proof (str_mul "0" (DIFFICULTY + 1)) then add_block bc block proof
  else Done (false, bc).

(** A block that was not built by [mine]: index 42 on top of the genesis
    block, with a nonce and a proof found beforehand. *)
Definition block42 : Block :=
  MkBlock 42 [Transaction.loads_str t1] "2021-03-14 15:09:26.600000"
          (JStr genesis_hash) 4251 None.
Definition proof42 : string :=
  "000e7b7c36ac7dda67000febda620485d40da555d5fb8b53365520905e3ad319".

(** The genesis block as [create_genesis_block] hashes it, and the digest
    [compute_hash] gives for it once [hash] is assigned. *)
Definition genesis_unsealed : Block := Block_init now0 0 genesis_transactions (JInt 0) 0.
Definition genesis_rehash : string :=
  "99e5c6936acf585d202a1d022d7d3fb2c23b2e86bd6103043de6c9c2b5be7397".

(** * Text of objects: [__str__], [__repr__], [json.loads], [show_chain] *)

Module JsonText.

(** [json.dumps(v)] with the defaults: as [Json.dumps], but the items of
    a dictionary are written in insertion order. *)
Fixpoint dumps (v : json) : string :=
  match v with
  | JInt z => Json.int_repr z
  | JStr s => Json.encode_basestring_ascii s
  | JList l => "[" ++ Json.join (map dumps l) ++ "]"
  | JDict d =>
      "{" ++ Json.join (map (fun kv => Json.item_text (fst kv, dumps (snd kv))) d) ++ "}"
  end.

(** The decoder skips spaces, tabs, line feeds and carriage returns
    between tokens. *)
Definition is_ws (c : ascii) : bool :=
  let n := Z.of_N (N_of_ascii c) in
  (n =? 32) || (n =? 9) || (n =? 10) || (n =? 13).

Fixpoint skip_ws (s : string) : string :=
  match s with
  | String c rest => if is_ws c then skip_ws rest else s
  | EmptyString => s
  end.

(** Value of a hexadecimal digit of either case. *)
Definition hex_digit_value (c : ascii) : option Z :=
  let n := Z.of_N (N_of_ascii c) in
  if (48 <=? n) && (n <=? 57) then Some (n - 48)
  else if (97 <=? n) && (n <=? 102) then Some (n - 87)
  else if (65 <=? n) && (n <=? 70) then Some (n - 55)
  else None.

Definition code_point (a b c d : ascii) : option Z :=
  match hex_digit_value a, hex_digit_value b, hex_digit_value c, hex_digit_value d with
  | Some x, Some y, Some z, Some w => Some (4096 * x + 256 * y + 16 * z + w)
  | _, _, _, _ => None
  end.

(** The character a one-letter escape stands for. *)
Definition unescape (e : ascii) : option ascii :=
  let n := Z.of_N (N_of_ascii e) in
  if n =? 34 then Some e
  else if n =? 92 then Some e
  else if n =? 47 then Some e
  else if n =? 98 then Some (ascii_of_N 8)
  else if n =? 102 then Some (ascii_of_N 12)
  else if n =? 110 then Some (ascii_of_N 10)
  else if n =? 114 then Some (ascii_of_N 13)
  else if n =? 116 then Some (ascii_of_N 9)
  else None.

Definition prepend (c : ascii) (r : option (string * string)) : option (string * string) :=
  match r with
  | Some (s, rest) => Some (String c s, rest)
  | None => None
  end.

(** The characters of a string literal, read from just after the opening
    quote up to the closing one; the result is the string and the text
    after the closing quote.  [None] stands for a [JSONDecodeError]
    (unterminated string, bad escape, raw control character) and also for
    a code point of 256 or more, which the strings of the model cannot
    hold. *)
Fixpoint scanstring (s : string) : option (string * string) :=
  match s with
  | EmptyString => None
  | String c r =>
      let n := Z.of_N (N_of_ascii c) in
      if n =? 34 then Some (EmptyString, r)
      else if n =? 92 then
        match r with
        | EmptyString => None
        | String e r1 =>
            if Z.of_N (N_of_ascii e) =? 117 then
              match r1 with
              | String h1 (String h2 (String h3 (String h4 r2))) =>
                  match code_point h1 h2 h3 h4 with
                  | Some cp =>
                      if cp <? 256 then prepend (ascii_of_N (Z.to_N cp)) (scanstring r2)
                      else None
                  | None => None
                  end
              | _ => None
              end
            else
              match unescape e with
              | Some ch => prepend ch (scanstring r1)
              | None => None
              end
        end
      else if n <? 32 then None
      else prepend c (scanstring r)
  end.

(** Decimal digits. *)
Definition digit (c : ascii) : option (Decimal.uint -> Decimal.uint) :=
  let n := Z.of_N (N_of_ascii c) in
  if n =? 48 then Some Decimal.D0 else if n =? 49 then Some Decimal.D1
  else if n =? 50 then Some Decimal.D2 else if n =? 51 then Some Decimal.D3
  else if n =? 52 then Some Decimal.D4 else if n =? 53 then Some Decimal.D5
  else if n =? 54 then Some Decimal.D6 else if n =? 55 then Some Decimal.D7
  else if n =? 56 then Some Decimal.D8 else if n =? 57 then Some Decimal.D9
  else None.

Definition is_digit (c : ascii) : bool :=
  match digit c with
  | Some _ => true
  | None => false
  end.

(** The longest run of digits at the front of a text. *)
Fixpoint digits (s : string) : Decimal.uint * string :=
  match s with
  | EmptyString => (Decimal.Nil, s)
  | String c rest =>
      match digit c with
      | Some d => let (u, rest1) := digits rest in (d u, rest1)
      | None => (Decimal.Nil, s)
      end
  end.

(** The integer part of a number: a single zero, or a digit from 1 to 9
    and all the digits that follow it. *)
Definition scan_uint (s : string) : option (Decimal.uint * string) :=
  match s with
  | EmptyString => None
  | String c rest =>
      if Z.of_N (N_of_ascii c) =? 48 then Some (Decimal.D0 Decimal.Nil, rest)
      else if is_digit c then Some (digits s)
      else None
  end.

(** A fraction (a point and a digit) or an exponent (e or E, an optional
    sign, a digit) follows: the number is a float. *)
Definition starts_float (s : string) : bool :=
  match s with
  | String c (String d rest) =>
      let n := Z.of_N (N_of_ascii c) in
      if n =? 46 then is_digit d
      else if (n =? 101) || (n =? 69) then
        is_digit d ||
        (((Z.of_N (N_of_ascii d) =? 43) || (Z.of_N (N_of_ascii d) =? 45)) &&
         match rest with
         | String d1 _ => is_digit d1
         | EmptyString => false
         end)
      else false
  | _ => false
  end.

(** A number; only integers have a value in the model. *)
Definition scan_number (s : string) : option (json * string) :=
  match s with
  | EmptyString => None
  | String c rest =>
      if Z.of_N (N_of_ascii c) =? 45 then
        match scan_uint rest with
        | Some (u, rest1) =>
            if starts_float rest1 then None else Some (JInt (Z.of_int (Decimal.Neg u)), rest1)
        | None => None
        end
      else
        match scan_uint s with
        | Some (u, rest1) =>
            if starts_float rest1 then None else Some (JInt (Z.of_int (Decimal.Pos u)), rest1)
        | None => None
        end
  end.

(** [dict(pairs)]: a key that comes again keeps its place and takes the
    later value. *)
Fixpoint dict_set (d : list (string * json)) (k : string) (v : json)
  : list (string * json) :=
  match d with
  | [] => [(k, v)]
  | (k1, v1) :: rest =>
      if String.eqb k k1 then (k1, v) :: rest else (k1, v1) :: dict_set rest k v
  end.

Definition dict_of_pairs (pairs : list (string * json)) : list (string * json) :=
  fold_left (fun d kv => dict_set d (fst kv) (snd kv)) pairs [].

(** One value at the front of a text that does not start with
    whitespace, and the text after it.  The fuel bounds the depth of the
    recursion; it is never spent when it exceeds the length of the text.
    [None] stands for a [JSONDecodeError] and also for [true], [false],
    [null], [NaN], [Infinity] and floats, which the model has no value
    for. *)
Fixpoint scan (fuel : nat) (s : string) : option (json * string) :=
  match fuel with
  | O => None
  | S fuel1 =>
      match s with
      | EmptyString => None
      | String c rest =>
          let n := Z.of_N (N_of_ascii c) in
          if n =? 34 then
            match scanstring rest with
            | Some (str, rest1) => Some (JStr str, rest1)
            | None => None
            end
          else if n =? 91 then
            match skip_ws rest with
            | String c1 rest1 =>
                if Z.of_N (N_of_ascii c1) =? 93 then Some (JList [], rest1)
                else
                  match scan fuel1 (skip_ws rest) with
                  | Some (v, rest2) =>
                      match array_tail fuel1 (skip_ws rest2) with
                      | Some (vs, rest3) => Some (JList (v :: vs), rest3)
                      | None => None
                      end
                  | None => None
                  end
            | EmptyString => None
            end
          else if n =? 123 then
            match skip_ws rest with
            | String c1 rest1 =>
                if Z.of_N (N_of_ascii c1) =? 125 then Some (JDict [], rest1)
                else
                  match object_items fuel1 (skip_ws rest) with
                  | Some (pairs, rest2) => Some (JDict (dict_of_pairs pairs), rest2)
                  | None => None
                  end
            | EmptyString => None
            end
          else scan_number s
      end
  end

(** After a value of an array: the closing bracket, or a comma and the
    next value. *)
with array_tail (fuel : nat) (s : string) : option (list json * string) :=
  match fuel with
  | O => None
  | S fuel1 =>
      match s with
      | EmptyString => None
      | String c rest =>
          let n := Z.of_N (N_of_ascii c) in
          if n =? 93 then Some ([], rest)
          else if n =? 44 then
            match scan fuel1 (skip_ws rest) with
            | Some (v, rest1) =>
                match array_tail fuel1 (skip_ws rest1) with
                | Some (vs, rest2) => Some (v :: vs, rest2)
                | None => None
                end
            | None => None
            end
          else None
      end
  end

(** The items of an object from the opening quote of a key on: key,
    colon, value, and then the closing brace or a comma and the next
    item. *)
with object_items (fuel : nat) (s : string) : option (list (string * json) * string) :=
  match fuel with
  | O => None
  | S fuel1 =>
      match s with
      | EmptyString => None
      | String c rest =>
          if Z.of_N (N_of_ascii c) =? 34 then
            match scanstring rest with
            | Some (key, rest1) =>
                match skip_ws rest1 with
                | String c1 rest2 =>
                    if Z.of_N (N_of_ascii c1) =? 58 then
                      match scan fuel1 (skip_ws rest2) with
                      | Some (v, rest3) =>
                          match skip_ws rest3 with
                          | String c3 rest4 =>
                              let n3 := Z.of_N (N_of_ascii c3) in
                              if n3 =? 125 then Some ([(key, v)], rest4)
                              else if n3 =? 44 then
                                match object_items fuel1 (skip_ws rest4) with
                                | Some (pairs, rest5) => Some ((key, v) :: pairs, rest5)
                                | None => None
                                end
                              else None
                          | EmptyString => None
                          end
                      | None => None
                      end
                    else None
                | EmptyString => None
                end
            | None => None
            end
          else None
      end
  end.

(** [json.loads(s)]: one value, with whitespace allowed before and after
    it and nothing else. *)
Definition loads (s : string) : option json :=
  let s := skip_ws s in
  match scan (S (String.length s)) s with
  | Some (v, rest) =>
      match skip_ws rest with
      | EmptyString => Some v
      | String _ _ => None
      end
  | None => None
  end.

(** Distinct keys, as in every Python dictionary, at every level. *)
Fixpoint distinct (keys : list string) : bool :=
  match keys with
  | [] => true
  | k :: rest => negb (existsb (String.eqb k) rest) && distinct rest
  end.

Fixpoint well_formed (v : json) : bool :=
  match v with
  | JInt _ => true
  | JStr _ => true
  | JList l => forallb well_formed l
  | JDict d => distinct (map fst d) && forallb (fun kv => well_formed (snd kv)) d
  end.

End JsonText.

(** [Transaction.__str__] and [Transaction.__repr__] *)
Definition Transaction_str (tx : Transaction.t) : string :=
  JsonText.dumps (JDict (Transaction.dict tx)).

(** [Block.__str__] and [Block.__repr__] *)
Definition Block_str (b : Block) : string := JsonText.dumps (JDict (Block_dict b)).

(** The line [show_chain] prints: the [repr] of the list of blocks. *)
Definition show_chain (bc : Blockchain) : string :=
  "[" ++ Json.join (map Block_str (chain bc)) ++ "]".

(** * Callers *)

(** A call a client can make on a chain. *)
Inductive call :=
| AddNewTransaction (tx : Transaction.t)
| Mine (fuel : nat) (now : string)
| AddBlock (block : Block) (proof : string).

(** The chain after one call; the value the call returns is dropped. *)
Definition exec (c : call) (bc : Blockchain) : res Blockchain :=
  match c with
  | AddNewTransaction tx => Done (add_new_transaction bc tx)
  | Mine fuel now => '(_, bc') <- mine fuel now bc ;; Done bc'
  | AddBlock block proof => '(_, bc') <- add_block bc block proof ;; Done bc'
  end.

(** A sequence of calls, one after the other. *)
Fixpoint run (calls : list call) (bc : Blockchain) : res Blockchain :=
  match calls with
  | [] => Done bc
  | c :: rest => bc' <- exec c bc ;; run rest bc'
  end.

(** The transactions handed to [add_new_transaction], in call order. *)
Fixpoint submitted (calls : list call) : list Transaction.t :=
  match calls with
  | [] => []
  | AddNewTransaction tx :: rest => tx :: submitted rest
  | _ :: rest => submitted rest
  end.

(** No direct call of [add_block]. *)
Definition through_mine (c : call) : bool :=
  match c with
  | AddBlock _ _ => false
  | _ => true
  end.

(** * Vocabulary of the further properties *)

(** The block [create_genesis_block] appends at clock reading [now]. *)
Definition genesis_at (now : string) : Block :=
  let g := Block_init now 0 genesis_transactions (JInt 0) 0 in
  set_hash g (compute_hash g).

(** All transactions held in the blocks of a chain, in chain order. *)
Definition committed (bc : Blockchain) : list json := flat_map transactions (chain bc).

(** The pool as [mine] would write it into a block. *)
Definition pending (bc : Blockchain) : list json :=
  map Transaction.loads_str (unconfirmed_transactions bc).

(** What [mine] leaves in a block it appends: a stored hash that passes
    [is_valid_proof] for the block as it was before the hash was assigned,
    a nonce below which no hash had the target prefix, and at least one
    transaction. *)
Definition mined_block (b : Block) : Prop :=
  exists h,
    hash b = Some h /\
    is_valid_proof (clear_hash b) h = true /\
    0 <= nonce b /\
    (forall m, 0 <= m < nonce b ->
       startswith (compute_hash (set_nonce (clear_hash b) m)) target = false) /\
    transactions b <> [].

(** Position by position: the index is the position, the first block is a
    genesis block and every later block is a mined one. *)
Definition positions_ok (l : list Block) : Prop :=
  forall (i : nat) (b : Block), nth_error l i = Some b ->
    index b = Z.of_nat i /\
    match i with
    | O => exists now, b = genesis_at now
    | S _ => mined_block b
    end.

(** The calls that lead from [chain0] to [mined2]. *)
Definition calls2 : list call :=
  [AddNewTransaction t1; Mine 3 now1; AddNewTransaction t2; Mine 2 now2].

(** Every character of a string passes a test. *)
Fixpoint string_forall (p : ascii -> bool) (s : string) : bool :=
  match s with
  | EmptyString => true
  | String c rest => p c && string_forall p rest
  end.

(** One of [0123456789abcdef]. *)
Definition is_lower_hex (c : ascii) : bool :=
  let n := Z.of_N (N_of_ascii c) in
  ((48 <=? n) && (n <=? 57)) || ((97 <=? n) && (n <=? 102)).

(** Printable ASCII, from the space to the tilde. *)
Definition is_printable (c : ascii) : bool :=
  let n := Z.of_N (N_of_ascii c) in
  (32 <=? n) && (n <=? 126).

(** A byte. *)
Definition is_byte (b : Z) : Prop := 0 <= b < 256.

(** The text goes on with something that is not part of a number. *)
Definition ends_number (rest : string) : Prop :=
  match rest with
  | EmptyString => True
  | String c _ =>
      JsonText.is_digit c = false /\
      Z.of_N (N_of_ascii c) <> 46 /\ Z.of_N (N_of_ascii c) <> 101 /\
      Z.of_N (N_of_ascii c) <> 69
  end.

(** What follows the first value of an array, and the first item of an
    object, in the text [JsonText.dumps] writes. *)
Fixpoint array_rest (vs : list json) (rest : string) : string :=
  match vs with
  | [] => String "]" rest
  | v :: vs' => String "," (String " " (JsonText.dumps v ++ array_rest vs' rest))
  end.

Fixpoint object_rest (d : list (string * json)) (rest : string) : string :=
  match d with
  | [] => String "}" rest
  | kv :: d' =>
      String "," (String " " (Json.encode_basestring_ascii (fst kv) ++
        String ":" (String " " (JsonText.dumps (snd kv) ++ object_rest d' rest))))
  end.

(** The text goes on with a separator, a closing bracket or brace, or
    ends. *)
Definition delimited (rest : string) : Prop :=
  match rest with
  | EmptyString => True
  | String c _ => c = ","%char \/ c = "]"%char \/ c = "}"%char
  end.

(** The first character of an encoded value is not whitespace and closes
    neither an array nor an object. *)
Definition opens_value (c : ascii) : Prop :=
  JsonText.is_ws c = false /\ Z.of_N (N_of_ascii c) <> 93 /\ Z.of_N (N_of_ascii c) <> 125.

(** A value is read back from the front of any text that goes on with a
    delimiter, given fuel beyond the length of the text. *)
Definition reads_back (v : json) : Prop :=
  forall (fuel : nat) (rest : string),
    delimited rest ->
    (String.length (JsonText.dumps v ++ rest) < fuel)%nat ->
    JsonText.scan fuel (JsonText.dumps v ++ rest) = Some (v, rest).

(** The value with the keys of every dictionary in sorted order: what
    [sort_keys=True] makes [json.dumps] write. *)
Fixpoint canonical (v : json) : json :=
  match v with
  | JInt z => JInt z
  | JStr s => JStr s
  | JList l => JList (map canonical l)
  | JDict d => JDict (Json.sort_items (map (fun kv => (fst kv, canonical (snd kv))) d))
  end.

(** [block1] with the items of its transaction in the opposite order. *)
Definition block1_reordered : Block :=
  MkBlock 1 [JDict (rev (Transaction.dict t1))] now1 (JStr genesis_hash) 2 (Some block1_hash).

(** The block with another list of transactions. *)
Definition set_transactions (b : Block) (txs : list json) : Block :=
  MkBlock (index b) txs (timestamp b) (previous_hash b) (nonce b) (hash b).

(** The order [sort_keys] puts items in. *)
Definition key_le {A : Type} (x y : string * A) : Prop := String.leb (fst x) (fst y) = true.

(** The lists of transactions of the blocks that a sequence of calls
    appends when each [mine] puts the whole pool into one block, and
    the pool left at the end; [pool] is the pool at the start. *)
Fixpoint blocks_of (calls : list call) (pool : list Transaction.t)
  : list (list json) * list Transaction.t :=
  match calls with
  | [] => ([], pool)
  | AddNewTransaction tx :: rest => blocks_of rest (pool ++ [tx])
  | Mine _ _ :: rest =>
      match pool with
      | [] => blocks_of rest []
      | _ :: _ =>
          let '(blocks, pool') := blocks_of rest [] in
          (map Transaction.loads_str pool :: blocks, pool')
      end
  | AddBlock _ _ :: rest => blocks_of rest pool
  end.

(** A chain without a block, and one whose only block has no [hash]. *)
Definition no_block : Blockchain := MkChain [t1] [].
Definition unsealed_tip : Blockchain := MkChain [t1] [genesis_unsealed].

(** ** The values the interpreter writes without complaint

    [json.dumps] raises [ValueError] on an integer of more than 4300
    decimal digits (the default of [sys.set_int_max_str_digits]) and
    [RecursionError] on a value nested deeper than the recursion limit.
    The functions of this development are total, so the properties that
    say what is returned or raised are stated for arguments within
    these limits. *)

Definition int_max_str_digits : nat := 4300.

(** The sign does not count as a digit. *)
Definition int_within_limit (z : Z) : bool :=
  (String.length (Json.int_repr (Z.abs z)) <=? int_max_str_digits)%nat.

Fixpoint ints_within_limit (v : json) : bool :=
  match v with
  | JInt z => int_within_limit z
  | JStr _ => true
  | JList l => forallb ints_within_limit l
  | JDict d => forallb (fun kv => ints_within_limit (snd kv)) d
  end.

(** Lists and dictionaries around the innermost item. *)
Fixpoint depth (v : json) : nat :=
  match v with
  | JInt _ | JStr _ => 0
  | JList l => S (fold_right (fun x n => Nat.max (depth x) n) 0%nat l)
  | JDict d => S (fold_right (fun kv n => Nat.max (depth (snd kv)) n) 0%nat d)
  end.

(** A depth of 100 is far below the default recursion limit of 1000. *)
Definition dumpable (v : json) : bool :=
  ints_within_limit v && (depth v <=? 100)%nat.

(** [str(tx)] and [json.loads] of it go through for a transaction of
    the model when its amount is within the limit. *)
Definition transaction_dumpable (tx : Transaction.t) : bool :=
  int_within_limit (Transaction.amount tx).

(** * The demonstration under [__main__] *)

(** The four transactions of the demonstration, each stamped with the
    clock reading of its construction. *)
Definition main_t1 (now : string) : Transaction.t :=
  Transaction.Make "Nitin" "somePizzaGuy" "Transfer 8 bitcoins for a simple pizza xD" 8 now.
Definition main_t2 (now : string) : Transaction.t :=
  Transaction.Make "SomeRandomDude" "somePizzaGuy"
                   "Transfer 80 bitcoins for a simple pizza xD" 80 now.
Definition main_t3 (now : string) : Transaction.t :=
  Transaction.Make "ThatGuy" "somePizzaGuy" "Transfer 8 bitcoins for a simple pizza xD" 8 now.
Definition main_t4 (now : string) : Transaction.t :=
  Transaction.Make "AnotherSimp" "somePizzaGuy" "Transfer 8 bitcoins for a simple pizza xD" 8 now.

(** [str] of what [mine] returned, as [print] writes it. *)
Definition mined_str (r : mined) : string :=
  match r with
  | MinedFalse => "False"
  | MinedIndex i => Json.int_repr i
  end.

(** The body under [if __name__ == '__main__']: [clock k] is the [k]-th
    reading of the clock (four transactions, the genesis block, four
    candidates), [fuel] bounds each of the four searches.  The result is
    the lines printed and the chain the module is left with. *)
Definition main (fuel : nat) (clock : nat -> string) : res (list string * Blockchain) :=
  let t1 := main_t1 (clock 0%nat) in
  let t2 := main_t2 (clock 1%nat) in
  let t3 := main_t3 (clock 2%nat) in
  let t4 := main_t4 (clock 3%nat) in
  let blockchain := Blockchain_init (clock 4%nat) in
  let blockchain := add_new_transaction blockchain t1 in
  '(r1, blockchain) <- mine fuel (clock 5%nat) blockchain ;;
  let blockchain := add_new_transaction blockchain t2 in
  '(r2, blockchain) <- mine fuel (clock 6%nat) blockchain ;;
  let blockchain := add_new_transaction blockchain t3 in
  '(r3, blockchain) <- mine fuel (clock 7%nat) blockchain ;;
  let blockchain := add_new_transaction blockchain t4 in
  '(r4, blockchain) <- mine fuel (clock 8%nat) blockchain ;;
  Done ([mined_str r1; mined_str r2; mined_str r3; mined_str r4; show_chain blockchain],
        blockchain).

(** Clock readings of one run, and the chain they lead to. *)
Definition demo_clock (k : nat) : string :=
  nth k [ "2021-03-14 15:09:26.535801"; "2021-03-14 15:09:26.535812";
          "2021-03-14 15:09:26.535820"; "2021-03-14 15:09:26.535827";
          "2021-03-14 15:09:26.535897"; "2021-03-14 15:09:26.537039";
          "2021-03-14 15:09:26.538649"; "2021-03-14 15:09:26.548014";
          "2021-03-14 15:09:26.561715" ] EmptyString.

Definition demo_chain : Blockchain :=
  MkChain []
    [ genesis0;
      MkBlock 1 [Transaction.loads_str (main_t1 (demo_clock 0))] (demo_clock 5)
              (JStr genesis_hash) 0
              (Some "0002606acb48c2f2340a4723fe83c203c717815825b6a5bd2d05bf8f0f68d530");
      MkBlock 2 [Transaction.loads_str (main_t2 (demo_clock 1))] (demo_clock 6)
              (JStr "0002606acb48c2f2340a4723fe83c203c717815825b6a5bd2d05bf8f0f68d530") 0
              (Some "000103eabbbf514ea43f301d734017cd8d2003377782660b91f1395711b0fe04");
      MkBlock 3 [Transaction.loads_str (main_t3 (demo_clock 2))] (demo_clock 7)
              (JStr "000103eabbbf514ea43f301d734017cd8d2003377782660b91f1395711b0fe04") 0
              (Some "000dc69006edcfddf0ba00ca4e3a44789a0e71bfe1d9d74964b238a516d62ebd");
      MkBlock 4 [Transaction.loads_str (main_t4 (demo_clock 3))] (demo_clock 8)
              (JStr "000dc69006edcfddf0ba00ca4e3a44789a0e71bfe1d9d74964b238a516d62ebd") 0
              (Some "000cc146561dbb45b0b69fd5ab9c13ff3323163586be13d3b1a8177e83cdf7e2") ].

Arguments compute_hash : simpl never.
Arguments block_string : simpl never.
Arguments startswith : simpl never.
Arguments SHA256.hexdigest : simpl never.

(** * Properties *)

(** ** Strings *)

Lemma str_eq_true (s : string) (v : json) : str_eq s v = true <-> v = JStr s.
Proof.
  destruct v; simpl; split; intro H; try discriminate.
  - apply String.eqb_eq in H. now subst.
  - inversion H. apply String.eqb_refl.
Qed.

Lemma prefix_append (p rest : string) : String.prefix p (p ++ rest) = true.
Proof.
  induction p as [|c p IH]; simpl.
  - now destruct rest.
  - destruct (ascii_dec c c) as [_|n]; [exact IH | now destruct n].
Qed.

Lemma prefix_split (p s : string) :
  String.prefix p s = true -> exists rest, s = (p ++ rest)%string.
Proof.
  revert s; induction p as [|c p IH]; intros s H.
  - now exists s.
  - destruct s as [|c' s]; simpl in H; [discriminate|].
    destruct (ascii_dec c c') as [->|_]; [|discriminate].
    destruct (IH _ H) as [rest ->]. now exists rest.
Qed.

Lemma startswith_iff (s p : string) :
  startswith s p = true <-> exists rest, s = (p ++ rest)%string.
Proof.
  unfold startswith; split.
  - apply prefix_split.
  - intros [rest ->]. apply prefix_append.
Qed.

Lemma leading_zeros_repeat (n : nat) (rest : string) :
  (n <= leading_zeros (str_repeat "0" n ++ rest))%nat.
Proof. induction n; simpl; lia. Qed.

Lemma startswith_target_zeros (h : string) :
  startswith h target = true -> DIFFICULTY <= Z.of_nat (leading_zeros h).
Proof.
  intros H. apply startswith_iff in H as [rest ->].
  pose proof (leading_zeros_repeat (Z.to_nat DIFFICULTY) rest) as L.
  unfold target, str_mul. unfold DIFFICULTY in *. lia.
Qed.

(** ** Block updates *)

Lemma set_nonce_set_nonce (b : Block) (n m : Z) :
  set_nonce (set_nonce b n) m = set_nonce b m.
Proof. reflexivity. Qed.

Lemma set_nonce_same (b : Block) : set_nonce b (nonce b) = b.
Proof. now destruct b. Qed.

Lemma nonce_set_nonce (b : Block) (n : Z) : nonce (set_nonce b n) = n.
Proof. reflexivity. Qed.

(** ** The proof-of-work search *)

Lemma first_nonce_unique (b : Block) (n n' : Z) :
  first_nonce b n -> first_nonce b n' -> n = n'.
Proof.
  intros (Hn & Hy & Hlt) (Hn' & Hy' & Hlt').
  destruct (Z.lt_trichotomy n n') as [L|[E|L]]; [|exact E|].
  - rewrite Hlt' in Hy by lia. discriminate.
  - rewrite Hlt in Hy' by lia. discriminate.
Qed.

Lemma pow_loop_step (fuel : nat) (blk : Block) (h : string) :
  pow_loop (S fuel) blk h
  = if startswith h target then Done (h, blk)
    else pow_loop fuel (set_nonce blk (nonce blk + 1))
                  (compute_hash (set_nonce blk (nonce blk + 1))).
Proof. cbn [pow_loop]. now destruct (startswith h target). Qed.

Lemma pow_loop_sound (fuel : nat) : forall (blk : Block) (h : string) (b' : Block),
  pow_loop fuel blk (compute_hash blk) = Done (h, b') ->
  exists k : nat,
    (k < fuel)%nat /\
    b' = set_nonce blk (nonce blk + Z.of_nat k) /\
    h = compute_hash b' /\
    startswith h target = true /\
    forall j : nat, (j < k)%nat ->
      startswith (compute_hash (set_nonce blk (nonce blk + Z.of_nat j))) target = false.
Proof.
  induction fuel as [|fuel IH]; intros blk h b' H; [discriminate|].
  rewrite pow_loop_step in H.
  destruct (startswith (compute_hash blk) target) eqn:E.
  - inversion H; subst. exists 0%nat. change (Z.of_nat 0) with 0.
    rewrite Z.add_0_r, set_nonce_same.
    repeat split; try lia; assumption.
  - apply IH in H as (k & Hk & Hb & Hh & Hs & Hlt).
    rewrite set_nonce_set_nonce, nonce_set_nonce in Hb.
    exists (S k). repeat split; try lia; try assumption.
    + rewrite Hb. f_equal. lia.
    + intros [|j] Hj.
      * change (Z.of_nat 0) with 0. rewrite Z.add_0_r, set_nonce_same. exact E.
      * specialize (Hlt j ltac:(lia)).
        rewrite set_nonce_set_nonce, nonce_set_nonce in Hlt.
        rewrite <- Hlt. do 3 f_equal. lia.
Qed.

Lemma pow_loop_complete (k : nat) : forall (fuel : nat) (blk : Block),
  (k < fuel)%nat ->
  startswith (compute_hash (set_nonce blk (nonce blk + Z.of_nat k))) target = true ->
  (forall j : nat, (j < k)%nat ->
     startswith (compute_hash (set_nonce blk (nonce blk + Z.of_nat j))) target = false) ->
  pow_loop fuel blk (compute_hash blk)
  = Done (compute_hash (set_nonce blk (nonce blk + Z.of_nat k)),
          set_nonce blk (nonce blk + Z.of_nat k)).
Proof.
  induction k as [|k IH]; intros fuel blk Hf Hy Hlt;
    (destruct fuel as [|fuel]; [lia|]); rewrite pow_loop_step.
  - change (Z.of_nat 0) with 0 in *.
    rewrite Z.add_0_r, set_nonce_same in *. now rewrite Hy.
  - pose proof (Hlt 0%nat ltac:(lia)) as H0.
    change (Z.of_nat 0) with 0 in H0.
    rewrite Z.add_0_r, set_nonce_same in H0. rewrite H0.
    rewrite (IH fuel (set_nonce blk (nonce blk + 1))); try lia.
    + rewrite set_nonce_set_nonce, nonce_set_nonce.
      replace (nonce blk + 1 + Z.of_nat k) with (nonce blk + Z.of_nat (S k)) by lia.
      reflexivity.
    + rewrite set_nonce_set_nonce, nonce_set_nonce.
      replace (nonce blk + 1 + Z.of_nat k) with (nonce blk + Z.of_nat (S k)) by lia.
      exact Hy.
    + intros j Hj. rewrite set_nonce_set_nonce, nonce_set_nonce.
      replace (nonce blk + 1 + Z.of_nat j) with (nonce blk + Z.of_nat (S j)) by lia.
      apply Hlt. lia.
Qed.

(** What a returning search returns. *)
Lemma proof_of_work_sound (fuel : nat) (b : Block) (h : string) (b' : Block) :
  proof_of_work fuel b = Done (h, b') ->
  exists n, first_nonce b n /\ (Z.to_nat n < fuel)%nat /\
            b' = set_nonce b n /\ h = compute_hash (set_nonce b n).
Proof.
  unfold proof_of_work. intros H.
  apply pow_loop_sound in H as (k & Hk & Hb & Hh & Hs & Hlt).
  rewrite set_nonce_set_nonce, nonce_set_nonce, Z.add_0_l in Hb.
  exists (Z.of_nat k). subst b'. repeat split; try lia; try assumption.
  - congruence.
  - intros m Hm. specialize (Hlt (Z.to_nat m) ltac:(lia)).
    rewrite set_nonce_set_nonce, nonce_set_nonce, Z.add_0_l in Hlt.
    rewrite <- Hlt. do 3 f_equal. lia.
Qed.

(** The search returns as soon as the fuel exceeds the first good nonce. *)
Lemma proof_of_work_complete (fuel : nat) (b : Block) (n : Z) :
  first_nonce b n -> (Z.to_nat n < fuel)%nat ->
  proof_of_work fuel b = Done (compute_hash (set_nonce b n), set_nonce b n).
Proof.
  intros (Hn & Hy & Hlt) Hf. unfold proof_of_work.
  rewrite (pow_loop_complete (Z.to_nat n)); try assumption;
    rewrite ?set_nonce_set_nonce, ?nonce_set_nonce, ?Z.add_0_l.
  - now rewrite Z2Nat.id by lia.
  - now rewrite Z2Nat.id by lia.
  - intros j Hj. rewrite set_nonce_set_nonce, Z.add_0_l. apply Hlt. lia.
Qed.

(** ** Validation and acceptance *)

Lemma is_valid_proof_true (b : Block) (h : string) :
  is_valid_proof b h = true <-> startswith h target = true /\ h = compute_hash b.
Proof.
  unfold is_valid_proof. rewrite andb_true_iff, String.eqb_eq. reflexivity.
Qed.

Lemma last_block_snoc (pool : list Transaction.t) (l : list Block) (b : Block) :
  last_block (MkChain pool (l ++ [b])) = Done b.
Proof.
  unfold last_block; cbn [chain].
  destruct l as [|x l]; [reflexivity|].
  cbn [app]. f_equal. apply last_last.
Qed.

Lemma add_block_spec (bc : Blockchain) (tip : Block) (h : string)
    (block : Block) (proof : string) :
  last_block bc = Done tip -> hash tip = Some h ->
  add_block bc block proof
  = if str_eq h (previous_hash block) && is_valid_proof block proof
    then Done (true, accepted bc block proof)
    else Done (false, bc).
Proof.
  intros Ht Hh. unfold add_block, get_hash. rewrite Ht; cbn [bind]. rewrite Hh; cbn [bind].
  destruct (str_eq h (previous_hash block)); cbn [negb andb]; [|reflexivity].
  destruct (is_valid_proof block proof); reflexivity.
Qed.

(** ** Mining *)

Lemma mine_empty (fuel : nat) (now : string) (bc : Blockchain) :
  unconfirmed_transactions bc = [] -> mine fuel now bc = Done (MinedFalse, bc).
Proof. unfold mine, mine_with. now intros ->. Qed.

(** With a non-empty pool, a call that returns has found the first good
    nonce of its candidate, emptied the pool and appended the candidate. *)
Lemma mine_nonempty (fuel : nat) (now : string) (bc : Blockchain)
    (r : mined) (bc' : Blockchain) :
  unconfirmed_transactions bc <> [] ->
  mine fuel now bc = Done (r, bc') ->
  exists tip tip_hash n,
    last_block bc = Done tip /\ hash tip = Some tip_hash /\
    let cand := candidate now tip tip_hash (unconfirmed_transactions bc) in
    first_nonce cand n /\
    r = MinedIndex (index tip + 1) /\
    bc' = MkChain [] (chain bc ++ [set_hash (set_nonce cand n)
                                            (compute_hash (set_nonce cand n))]).
Proof.
  intros Hpool H. unfold mine, mine_with in H.
  destruct (unconfirmed_transactions bc) as [|tx pool] eqn:Epool; [congruence|].
  destruct (last_block bc) as [tip| |] eqn:Et; cbn [bind] in H; try discriminate.
  unfold get_hash in H.
  destruct (hash tip) as [tip_hash|] eqn:Eh; cbn [bind] in H; try discriminate.
  fold (candidate now tip tip_hash (tx :: pool)) in H.
  set (cand := candidate now tip tip_hash (tx :: pool)) in *.
  destruct (proof_of_work fuel cand) as [[proof nb]| |] eqn:Epow;
    cbn [bind] in H; try discriminate.
  apply proof_of_work_sound in Epow as (n & Hfirst & _ & -> & ->).
  assert (Hlast : last_block (MkChain [] (chain bc)) = Done tip) by exact Et.
  rewrite (add_block_spec _ tip tip_hash _ _ Hlast Eh) in H.
  assert (Hlink : str_eq tip_hash (previous_hash (set_nonce cand n)) = true)
    by (apply str_eq_true; reflexivity).
  assert (Hvalid : is_valid_proof (set_nonce cand n) (compute_hash (set_nonce cand n)) = true)
    by (apply is_valid_proof_true; split; [apply Hfirst | reflexivity]).
  rewrite Hlink, Hvalid in H. cbn [andb bind] in H.
  inversion H; subst r bc'.
  exists tip, tip_hash, n. repeat split; try assumption; apply Hfirst.
Qed.

(** Conversely, [mine] returns once the fuel covers the first good nonce. *)
Lemma mine_returns (fuel : nat) (now : string) (bc : Blockchain)
    (tip : Block) (tip_hash : string) (n : Z) :
  unconfirmed_transactions bc <> [] ->
  last_block bc = Done tip -> hash tip = Some tip_hash ->
  let cand := candidate now tip tip_hash (unconfirmed_transactions bc) in
  first_nonce cand n -> (Z.to_nat n < fuel)%nat ->
  mine fuel now bc
  = Done (MinedIndex (index tip + 1),
          MkChain [] (chain bc ++ [set_hash (set_nonce cand n)
                                            (compute_hash (set_nonce cand n))])).
Proof.
  intros Hpool Et Eh cand Hfirst Hfuel. unfold mine, mine_with.
  destruct (unconfirmed_transactions bc) as [|tx pool] eqn:Epool; [congruence|].
  rewrite Et; cbn [bind]. unfold get_hash. rewrite Eh; cbn [bind].
  fold (candidate now tip tip_hash (tx :: pool)). fold cand.
  rewrite (proof_of_work_complete fuel cand n Hfirst Hfuel); cbn [bind].
  assert (Hlast : last_block (MkChain [] (chain bc)) = Done tip) by exact Et.
  rewrite (add_block_spec _ tip tip_hash _ _ Hlast Eh).
  assert (Hlink : str_eq tip_hash (previous_hash (set_nonce cand n)) = true)
    by (apply str_eq_true; reflexivity).
  assert (Hvalid : is_valid_proof (set_nonce cand n) (compute_hash (set_nonce cand n)) = true)
    by (apply is_valid_proof_true; split; [apply Hfirst | reflexivity]).
  rewrite Hlink, Hvalid. reflexivity.
Qed.

Lemma add_block_keeps_pool : keeps_pool add_block.
Proof.
  intros bc block proof added bc' H. unfold add_block in H.
  destruct (last_block bc) as [tip| |]; cbn [bind] in H; try discriminate.
  destruct (get_hash tip) as [h| |]; cbn [bind] in H; try discriminate.
  destruct (negb (str_eq h (previous_hash block)));
    [inversion H; subst; now split|].
  destruct (negb (is_valid_proof block proof)); inversion H; subst; cbn; split;
    try reflexivity; discriminate.
Qed.

Lemma add_block_four_zeros_keeps_pool : keeps_pool add_block_four_zeros.
Proof.
  intros bc block proof added bc' H. unfold add_block_four_zeros in H.
  destruct (startswith proof _).
  - now apply (add_block_keeps_pool bc block proof).
  - inversion H; subst. now split.
Qed.

(** With a non-empty pool, a call of the body that returns has run the
    search, handed the method the chain with the pool already emptied,
    and answers with what the method answered. *)
Lemma mine_with_nonempty
    (self_add_block : Blockchain -> Block -> string -> res (bool * Blockchain))
    (fuel : nat) (now : string) (bc : Blockchain) (r : mined) (bc' : Blockchain) :
  unconfirmed_transactions bc <> [] ->
  mine_with self_add_block fuel now bc = Done (r, bc') ->
  exists tip tip_hash n added,
    last_block bc = Done tip /\ hash tip = Some tip_hash /\
    let cand := candidate now tip tip_hash (unconfirmed_transactions bc) in
    first_nonce cand n /\
    self_add_block (MkChain [] (chain bc)) (set_nonce cand n) (compute_hash (set_nonce cand n))
    = Done (added, bc') /\
    r = if added then MinedIndex (index tip + 1) else MinedFalse.
Proof.
  intros Hpool H. unfold mine_with in H.
  destruct (unconfirmed_transactions bc) as [|tx pool] eqn:Epool; [congruence|].
  destruct (last_block bc) as [tip| |] eqn:Et; cbn [bind] in H; try discriminate.
  unfold get_hash in H.
  destruct (hash tip) as [tip_hash|] eqn:Eh; cbn [bind] in H; try discriminate.
  fold (candidate now tip tip_hash (tx :: pool)) in H.
  set (cand := candidate now tip tip_hash (tx :: pool)) in *.
  destruct (proof_of_work fuel cand) as [[proof nb]| |] eqn:Epow;
    cbn [bind] in H; try discriminate.
  apply proof_of_work_sound in Epow as (n & Hfirst & _ & -> & ->).
  destruct (self_add_block _ _ _) as [[added bc1]| |] eqn:Eadd; cbn [bind] in H;
    try discriminate.
  assert (Hr : r = (if added then MinedIndex (index tip + 1) else MinedFalse) /\ bc' = bc1)
    by (destruct added; inversion H; subst; split; reflexivity).
  destruct Hr as [-> ->].
  exists tip, tip_hash, n, added.
  split; [reflexivity|]. split; [exact Eh|]. split; [exact Hfirst|].
  split; [exact Eadd | reflexivity].
Qed.

(** The two ways a returning call of [mine] can have gone: on an empty
    pool the hypothesis [H] becomes [Done (MinedFalse, bc) = Done (r, bc')];
    otherwise [r] and [bc'] are replaced by what [mine_nonempty] gives. *)
Ltac mine_cases H tip tip_hash n Ht Hh :=
  let Epool := fresh "Epool" in
  match type of H with
  | mine _ _ ?bc = Done _ =>
      destruct (unconfirmed_transactions bc) eqn:Epool;
      [ rewrite mine_empty in H by assumption
      | apply mine_nonempty in H as (tip & tip_hash & n & Ht & Hh & _ & _ & ->);
        [|congruence] ]
  end.

(** ** Chains built through the public interface *)

Lemma nth_error_last (l : list Block) (x b : Block) :
  nth_error (x :: l) (List.length l) = Some b -> last l x = b.
Proof.
  revert x; induction l as [|y l IH]; intros x H.
  - now inversion H.
  - cbn [List.length nth_error] in H. cbn [last].
    destruct l as [|z l]; [now inversion H | now apply IH].
Qed.

Lemma chain_ok_snoc (pool : list Transaction.t) (l : list Block) (tip b : Block) :
  chain_ok l -> last_block (MkChain pool l) = Done tip ->
  sealed b -> link_ok tip b -> chain_ok (l ++ [b]).
Proof.
  intros [Hs Hl] Ht Hb Hlink. split.
  - apply Forall_app. split; [exact Hs | now constructor].
  - intros i prev cur Hp Hc.
    destruct (Nat.lt_ge_cases (S i) (List.length l)) as [Hlt|Hge].
    + rewrite nth_error_app1 in Hp, Hc by lia. now apply (Hl i).
    + assert (Hi : S i = List.length l).
      { apply Nat.le_antisymm; [|exact Hge].
        assert (nth_error (l ++ [b]) (S i) <> None) as Hn by congruence.
        apply nth_error_Some in Hn. rewrite length_app in Hn. simpl in Hn. lia. }
      rewrite nth_error_app2 in Hc by lia.
      rewrite Hi, Nat.sub_diag in Hc. inversion Hc; subst cur.
      rewrite nth_error_app1 in Hp by lia.
      unfold last_block in Ht; cbn [chain] in Ht.
      destruct l as [|x l]; [discriminate|].
      inversion Ht; subst tip. cbn [List.length] in Hi. inversion Hi; subst i.
      apply nth_error_last in Hp. now subst prev.
Qed.

Lemma reachable_chain_ok (bc : Blockchain) : reachable bc -> chain_ok (chain bc).
Proof.
  induction 1 as [now | bc tx _ IH | bc fuel now r bc' _ IH Hmine].
  - split.
    + repeat constructor.
    + intros [|[|i]] prev cur Hp Hc; discriminate.
  - exact IH.
  - mine_cases Hmine tip tip_hash n Ht Hh; [now inversion Hmine; subst|].
    + cbn [chain]. apply (chain_ok_snoc (unconfirmed_transactions bc) _ tip).
      * exact IH.
      * now destruct bc.
      * reflexivity.
      * exists tip_hash. repeat split; [exact Hh].
Qed.

(** Every chain of the interface has a tip, and the tip carries a hash:
    [add_block] and [mine] do not raise on it. *)
Lemma reachable_tip (bc : Blockchain) :
  reachable bc -> exists tip tip_hash, last_block bc = Done tip /\ hash tip = Some tip_hash.
Proof.
  induction 1 as [now | bc tx _ IH | bc fuel now r bc' _ IH Hmine].
  - eexists _, _. split; reflexivity.
  - exact IH.
  - mine_cases Hmine tip tip_hash n Ht Hh; [now inversion Hmine; subst|].
    eexists _, _. split; [apply last_block_snoc | reflexivity].
Qed.

(** ** Concrete runs *)

Lemma run_new : Blockchain_init now0 = chain0.
Proof. vm_compute. reflexivity. Qed.

Lemma run_mine1 : mine 3 now1 pending1 = Done (MinedIndex 1, mined1).
Proof. vm_compute. reflexivity. Qed.

Lemma run_mine2 : mine 2 now2 pending2 = Done (MinedIndex 2, mined2).
Proof. vm_compute. reflexivity. Qed.

(** Two units of fuel are one too few for the first block. *)
Lemma run_mine1_short : mine 2 now1 pending1 = OutOfFuel.
Proof. vm_compute. reflexivity. Qed.

Lemma reachable_chain0 : reachable chain0.
Proof. rewrite <- run_new. constructor. Qed.

Lemma reachable_pending1 : reachable pending1.
Proof. exact (reach_add_new_transaction chain0 t1 reachable_chain0). Qed.

Lemma reachable_mined1 : reachable mined1.
Proof. exact (reach_mine _ _ _ _ _ reachable_pending1 run_mine1). Qed.

Lemma reachable_mined2 : reachable mined2.
Proof.
  exact (reach_mine _ _ _ _ _ (reach_add_new_transaction mined1 t2 reachable_mined1) run_mine2).
Qed.

Lemma run_pow1 : proof_of_work 3 cand1 = Done (block1_hash, set_nonce cand1 2).
Proof. vm_compute. reflexivity. Qed.

Lemma run_pow4 : proof_of_work 2 cand4 = Done (hash4, set_nonce cand4 1).
Proof. vm_compute. reflexivity. Qed.

Lemma run_hash42 : compute_hash block42 = proof42.
Proof. vm_compute. reflexivity. Qed.

Lemma run_valid42 : is_valid_proof block42 proof42 = true.
Proof. apply is_valid_proof_true. split; [reflexivity | symmetry; exact run_hash42]. Qed.

Lemma run_genesis_hash : compute_hash genesis_unsealed = genesis_hash.
Proof. vm_compute. reflexivity. Qed.

Lemma run_genesis_rehash : compute_hash genesis0 = genesis_rehash.
Proof. vm_compute. reflexivity. Qed.

(** ** The digest against published test vectors *)

Example constant_tables :
  List.length SHA256.K256 = 64%nat /\ List.length SHA256.H0 = 8%nat /\
  nth 0 SHA256.K256 0 = 0x428a2f98 /\ nth 18 SHA256.K256 0 = 0x0fc19dc6 /\
  nth 63 SHA256.K256 0 = 0xc67178f2 /\ nth 7 SHA256.H0 0 = 0x5be0cd19.
Proof. vm_compute. repeat split. Qed.

Example sha256_abc :
  SHA256.hexdigest (SHA256.encode "abc")
  = "ba7816bf8f01cfea414140de5dae2223b00361a396177a9cb410ff61f20015ad".
Proof. vm_compute. reflexivity. Qed.

Example sha256_two_blocks :
  SHA256.hexdigest
    (SHA256.encode "abcdbcdecdefdefgefghfghighijhijkijkljklmklmnlmnomnopnopq")
  = "248d6a61d20638b8e5c026930c3e6039a33ce45964ff2167f6ecedd419db06c1".
Proof. vm_compute. reflexivity. Qed.

Example sha256_empty :
  SHA256.hexdigest (SHA256.encode EmptyString)
  = "e3b0c44298fc1c149afbf4c8996fb92427ae41e4649b934ca495991b7852b855".
Proof. vm_compute. reflexivity. Qed.

(** Keys out of order at two levels, a negative integer, empty
    containers and every kind of escape: the digest is the one [hashlib]
    gives for the text [json.dumps] writes. *)
Example compute_hash_escapes :
  let tx := Transaction.Make "Nitin" ("some" ++ Json.quote ++ "Pizza\Guy")
              (String (ascii_of_N 233) (String (ascii_of_N 10) (String (ascii_of_N 127) "x")))
              (-8) now0 in
  let b := Block_init now0 1
             [ Transaction.loads_str tx; JList []; JDict [];
               JDict [("b", JInt 1); ("a", JInt 2); ("B", JInt 3); ("ab", JInt 3);
                      (EmptyString, JInt 0)] ]
             (JStr "00ab") 17 in
  compute_hash b = "9aaf0948d248dc92c1acf1e36941bf5f292a2a4ffcb67fc053615f226bf18e2e".
Proof. vm_compute. reflexivity. Qed.

(** The text that is hashed for the first mined block. *)
Example block_string_cand1 :
  block_string cand1
  = String "{" (Json.quote ++ "index" ++ Json.quote ++ ": 1, " ++
      Json.quote ++ "nonce" ++ Json.quote ++ ": 0, " ++
      Json.quote ++ "previous_hash" ++ Json.quote ++ ": " ++
        Json.quote ++ genesis_hash ++ Json.quote ++ ", " ++
      Json.quote ++ "timestamp" ++ Json.quote ++ ": " ++
        Json.quote ++ now1 ++ Json.quote ++ ", " ++
      Json.quote ++ "transactions" ++ Json.quote ++ ": [{" ++
        Json.quote ++ "amount" ++ Json.quote ++ ": 8, " ++
        Json.quote ++ "data" ++ Json.quote ++ ": " ++
          Json.quote ++ "Transfer 8 bitcoins for a simple pizza xD" ++ Json.quote ++ ", " ++
        Json.quote ++ "receiver" ++ Json.quote ++ ": " ++
          Json.quote ++ "somePizzaGuy" ++ Json.quote ++ ", " ++
        Json.quote ++ "sender" ++ Json.quote ++ ": " ++
          Json.quote ++ "Nitin" ++ Json.quote ++ ", " ++
        Json.quote ++ "timestamp" ++ Json.quote ++ ": " ++
          Json.quote ++ "2021-03-14 15:09:26.535950" ++ Json.quote ++ "}]}")%string.
Proof. vm_compute. reflexivity. Qed.

(** * The statements of the specification *)

(** ** Fingerprinting *)

(** The text that is hashed starts with the [hash] item once the
    attribute is set, and with the [index] item before: the two texts
    differ for every block and every stored hash. *)
Lemma block_string_sees_hash (b : Block) (h : string) :
  block_string (set_hash b h) <> block_string (clear_hash b).
Proof.
  unfold block_string, Block_dict, set_hash, clear_hash.
  cbn [hash index transactions timestamp previous_hash nonce app].
  cbn [Json.dumps map fst snd]. unfold Json.sort_items.
  cbn [fold_right Json.insert_item fst snd].
  cbv [String.leb String.compare Ascii.compare].
  cbn. discriminate.
Qed.

(** The search of the first block, then a method that refuses its proof. *)
Lemma run_mine1_refused :
  mine_with add_block_four_zeros 3 now1 pending1 = Done (MinedFalse, chain0).
Proof.
  change (('(proof, new_block) <- proof_of_work 3 cand1 ;;
           '(added, bc) <- add_block_four_zeros (MkChain [] (chain pending1)) new_block proof ;;
           if added then Done (MinedIndex (index new_block), bc)
           else Done (MinedFalse, bc))
          = Done (MinedFalse, chain0)).
  rewrite run_pow1. cbn [bind]. reflexivity.
Qed.

(** C2 (evaluated on the code).  [compute_hash] dumps the whole
    [__dict__], which holds [hash] once it is assigned: the genesis block
    of [Blockchain()] stores the digest taken before the assignment, and
    [compute_hash] on that same block afterwards gives another digest.
    For the same reason the first mined block, unchanged since it was
    appended, no longer passes [is_valid_proof] against its own stored
    hash, although it did before the assignment. *)
Theorem genesis_hash_not_reproduced :
  chain (Blockchain_init now0) = [set_hash genesis_unsealed genesis_hash] /\
  compute_hash genesis_unsealed = genesis_hash /\
  compute_hash (set_hash genesis_unsealed genesis_hash) = genesis_rehash /\
  genesis_rehash <> genesis_hash /\
  is_valid_proof (clear_hash block1) block1_hash = true /\
  is_valid_proof block1 block1_hash = false.
Proof.
  split; [now rewrite run_new|].
  split; [exact run_genesis_hash|].
  split; [exact run_genesis_rehash|].
  split; [discriminate|].
  split; vm_compute; reflexivity.
Qed.

(** ** Validation *)

(** C4.  [is_valid_proof] holds exactly of the strings that begin with
    [DIFFICULTY] = 3 zero characters and are the hash recomputed from the
    block as it is. *)
Theorem is_valid_proof_iff :
  DIFFICULTY = 3 /\
  forall (block : Block) (claimed_hash : string),
    is_valid_proof block claimed_hash = true <->
    (exists rest, claimed_hash = ("000" ++ rest)%string) /\
    claimed_hash = compute_hash block.
Proof.
  split; [reflexivity|]. intros block claimed_hash.
  rewrite is_valid_proof_true. now rewrite (startswith_iff claimed_hash target).
Qed.

(** If a block passes against a hash and a changed block passes against
    the same hash, the two blocks have the same digest. *)
Lemma undetected_change_same_digest (b b' : Block) (h : string) :
  is_valid_proof b h = true -> is_valid_proof b' h = true ->
  compute_hash b' = compute_hash b.
Proof.
  intros H H'. apply is_valid_proof_true in H as [_ H], H' as [_ H']. congruence.
Qed.

(** Changing the amount of the transaction in the first mined block. *)
Example changed_amount_rejected :
  let t1' := Transaction.Make (Transaction.sender t1) (Transaction.receiver t1)
                              (Transaction.data t1) 9 (Transaction.timestamp t1) in
  let b := set_nonce cand1 2 in
  let b' := MkBlock (index b) [Transaction.loads_str t1'] (timestamp b)
                    (previous_hash b) (nonce b) (hash b) in
  is_valid_proof b block1_hash = true /\ is_valid_proof b' block1_hash = false.
Proof. vm_compute. split; reflexivity. Qed.

(** ** Acceptance *)

(** C3.  On a chain whose tip carries a hash, [add_block] returns [False]
    and the chain it was given when the linkage or the proof fails, and
    otherwise returns [True] and the chain extended by the block with
    [hash] set to the proof. *)
Theorem add_block_outcomes (bc : Blockchain) (tip : Block) (tip_hash : string)
    (block : Block) (proof : string) :
  last_block bc = Done tip -> hash tip = Some tip_hash ->
  (previous_hash block <> JStr tip_hash \/ is_valid_proof block proof = false ->
   add_block bc block proof = Done (false, bc)) /\
  (previous_hash block = JStr tip_hash /\ is_valid_proof block proof = true ->
   add_block bc block proof
   = Done (true, MkChain (unconfirmed_transactions bc)
                         (chain bc ++ [set_hash block proof])) /\
   last_block (MkChain (unconfirmed_transactions bc) (chain bc ++ [set_hash block proof]))
   = Done (set_hash block proof) /\
   hash (set_hash block proof) = Some proof).
Proof.
  intros Ht Hh. rewrite (add_block_spec bc tip tip_hash block proof Ht Hh). split.
  - intros [Hne | Hinv].
    + destruct (str_eq tip_hash (previous_hash block)) eqn:E; [|reflexivity].
      apply str_eq_true in E. contradiction.
    + rewrite Hinv, andb_false_r. reflexivity.
  - intros [Heq Hv]. apply str_eq_true in Heq. rewrite Heq, Hv.
    repeat split. apply last_block_snoc.
Qed.

Lemma add_block_outcomes_witness :
  last_block chain0 = Done genesis0 /\ hash genesis0 = Some genesis_hash /\
  (previous_hash genesis_unsealed <> JStr genesis_hash /\
   add_block chain0 genesis_unsealed proof42 = Done (false, chain0)) /\
  (previous_hash block42 = JStr genesis_hash /\ is_valid_proof block42 proof42 = true /\
   add_block chain0 block42 proof42
   = Done (true, MkChain [] [genesis0; set_hash block42 proof42])).
Proof.
  pose proof (add_block_outcomes chain0 genesis0 genesis_hash genesis_unsealed proof42
                eq_refl eq_refl) as [Hrej _].
  pose proof (add_block_outcomes chain0 genesis0 genesis_hash block42 proof42
                eq_refl eq_refl) as [_ Hacc].
  assert (Hne : previous_hash genesis_unsealed <> JStr genesis_hash) by discriminate.
  exact (conj eq_refl (conj eq_refl
           (conj (conj Hne (Hrej (or_introl Hne)))
                 (conj eq_refl (conj run_valid42
                                     (proj1 (Hacc (conj eq_refl run_valid42)))))))).
Defined.

(** C10.  Nothing in [add_block] looks at [index]: on the fresh chain, a
    block of index 42 whose [previous_hash] is the genesis hash and whose
    proof is valid is appended right after the block of index 0. *)
Theorem add_block_accepts_any_index :
  exists (bc : Blockchain) (tip block : Block) (proof : string),
    reachable bc /\ last_block bc = Done tip /\
    index block <> index tip + 1 /\
    hash tip = Some genesis_hash /\ previous_hash block = JStr genesis_hash /\
    is_valid_proof block proof = true /\
    add_block bc block proof
    = Done (true, MkChain (unconfirmed_transactions bc)
                          (chain bc ++ [set_hash block proof])).
Proof.
  exists chain0, genesis0, block42, proof42.
  split; [exact reachable_chain0|].
  split; [reflexivity|].
  split; [discriminate|].
  split; [reflexivity|].
  split; [reflexivity|].
  split; [exact run_valid42|].
  rewrite (add_block_spec chain0 genesis0 genesis_hash block42 proof42 eq_refl eq_refl).
  rewrite run_valid42. reflexivity.
Qed.

(** ** Proof of work *)

(** C5 as stated fails: the search stops at the first hash that starts
    with three zeros, and that hash may have more.  The candidate built at
    [now4] is returned with a hash of four leading zeros. *)
Lemma proof_of_work_four_zeros :
  proof_of_work 2 cand4 = Done (hash4, set_nonce cand4 1) /\
  leading_zeros hash4 = 4%nat /\
  Z.of_nat (leading_zeros hash4) <> DIFFICULTY.
Proof.
  split; [exact run_pow4|]. split; [reflexivity | discriminate].
Qed.

(** C5 (amended).  A search that returns gives a hash whose first
    [DIFFICULTY] characters are zeros, so it has at least that many leading
    zeros, and [is_valid_proof] accepts it for the block as the search
    left it. *)
Theorem proof_of_work_meets_difficulty (fuel : nat) (B : Block)
    (returned_hash : string) (B' : Block) :
  proof_of_work fuel B = Done (returned_hash, B') ->
  startswith returned_hash (str_mul "0" DIFFICULTY) = true /\
  DIFFICULTY <= Z.of_nat (leading_zeros returned_hash) /\
  is_valid_proof B' returned_hash = true.
Proof.
  intros H. apply proof_of_work_sound in H as (n & (_ & Hy & _) & _ & -> & ->).
  split; [exact Hy|]. split.
  - now apply startswith_target_zeros.
  - apply is_valid_proof_true. now split.
Qed.

Lemma proof_of_work_meets_difficulty_witness :
  proof_of_work 3 cand1 = Done (block1_hash, set_nonce cand1 2) /\
  startswith block1_hash (str_mul "0" DIFFICULTY) = true /\
  DIFFICULTY <= Z.of_nat (leading_zeros block1_hash) /\
  is_valid_proof (set_nonce cand1 2) block1_hash = true.
Proof.
  exact (conj run_pow1
              (proof_of_work_meets_difficulty 3 cand1 block1_hash (set_nonce cand1 2) run_pow1)).
Defined.

(** C9.  The search starts from nonce 0 whatever nonce the block came
    with, so the block's own nonce has no effect on the result; when it
    returns, the block differs from the one given only in its nonce, that
    nonce is the first one from 0 upwards whose hash has the target
    prefix, and the returned hash is the hash at that nonce. *)
Theorem proof_of_work_first_nonce (fuel : nat) (block : Block)
    (returned_hash : string) (block' : Block) :
  proof_of_work fuel block = Done (returned_hash, block') ->
  (forall k : Z, proof_of_work fuel (set_nonce block k) = Done (returned_hash, block')) /\
  block' = set_nonce block (nonce block') /\
  0 <= nonce block' /\
  startswith (compute_hash (set_nonce block (nonce block'))) (str_mul "0" DIFFICULTY) = true /\
  (forall m : Z, 0 <= m < nonce block' ->
     startswith (compute_hash (set_nonce block m)) (str_mul "0" DIFFICULTY) = false) /\
  returned_hash = compute_hash (set_nonce block (nonce block')).
Proof.
  intros H. split; [intros k; exact H|].
  apply proof_of_work_sound in H as (n & (Hn & Hy & Hlt) & _ & -> & ->).
  rewrite nonce_set_nonce. repeat split; assumption.
Qed.

Lemma proof_of_work_first_nonce_witness :
  proof_of_work 3 cand1 = Done (block1_hash, set_nonce cand1 2) /\
  proof_of_work 3 (set_nonce cand1 77) = Done (block1_hash, set_nonce cand1 2) /\
  nonce (set_nonce cand1 2) = 2 /\
  startswith (compute_hash (set_nonce cand1 1)) (str_mul "0" DIFFICULTY) = false /\
  block1_hash = compute_hash (set_nonce cand1 2).
Proof.
  pose proof (proof_of_work_first_nonce 3 cand1 block1_hash (set_nonce cand1 2) run_pow1)
    as (Hany & _ & _ & _ & Hlt & Hh).
  exact (conj run_pow1 (conj (Hany 77) (conj eq_refl
          (conj (Hlt 1 (conj (Z.le_0_1) Z.lt_1_2)) Hh)))).
Defined.

(** ** Mining *)

(** C1.  [mine] empties the pool before it calls [self.add_block], and
    does not look at the pool again.  So with a non-empty pool, whatever
    method the call reaches, provided it leaves the pool alone and on a
    refusal the chain too, as the [add_block] of the class does: once
    [mine] has returned the pool is empty, after [True] and after [False]
    alike; after [False] the chain is the one before the call, so that the
    pooled transactions are in neither; and the answer is the one of the
    method on the chain with the pool already emptied.  In particular
    the pool is empty after every returning call of [mine] on a
    [Blockchain]. *)
Theorem mine_clears_pool :
  keeps_pool add_block /\
  (forall (self_add_block : Blockchain -> Block -> string -> res (bool * Blockchain))
          (fuel : nat) (now : string) (bc : Blockchain) (r : mined) (bc' : Blockchain),
     keeps_pool self_add_block ->
     unconfirmed_transactions bc <> [] ->
     mine_with self_add_block fuel now bc = Done (r, bc') ->
     unconfirmed_transactions bc' = [] /\
     (r = MinedFalse -> chain bc' = chain bc) /\
     exists (new_block : Block) (proof : string) (added : bool),
       self_add_block (MkChain [] (chain bc)) new_block proof = Done (added, bc') /\
       r = if added then MinedIndex (index new_block) else MinedFalse) /\
  (forall (fuel : nat) (now : string) (bc : Blockchain) (r : mined) (bc' : Blockchain),
     unconfirmed_transactions bc <> [] ->
     mine fuel now bc = Done (r, bc') ->
     unconfirmed_transactions bc' = []).
Proof.
  assert (Hgen : forall self_add_block fuel now bc r bc',
     keeps_pool self_add_block ->
     unconfirmed_transactions bc <> [] ->
     mine_with self_add_block fuel now bc = Done (r, bc') ->
     unconfirmed_transactions bc' = [] /\
     (r = MinedFalse -> chain bc' = chain bc) /\
     exists (new_block : Block) (proof : string) (added : bool),
       self_add_block (MkChain [] (chain bc)) new_block proof = Done (added, bc') /\
       r = if added then MinedIndex (index new_block) else MinedFalse).
  { intros self_add_block fuel now bc r bc' Hkeeps Hpool H.
    apply mine_with_nonempty in H as (tip & tip_hash & n & added & _ & _ & _ & Hadd & ->);
      [|exact Hpool].
    destruct (Hkeeps _ _ _ _ _ Hadd) as [Hp Hc]. cbn [unconfirmed_transactions chain] in Hp, Hc.
    split; [exact Hp|]. split.
    - destruct added; [discriminate|]. intros _. now apply Hc.
    - eexists _, _, added. split; [exact Hadd|]. reflexivity. }
  split; [exact add_block_keeps_pool|]. split; [exact Hgen|].
  intros fuel now bc r bc' Hpool H.
  exact (proj1 (Hgen add_block fuel now bc r bc' add_block_keeps_pool Hpool H)).
Qed.

Lemma mine_clears_pool_witness :
  unconfirmed_transactions pending1 = [t1] /\
  mine_with add_block_four_zeros 3 now1 pending1 = Done (MinedFalse, chain0) /\
  unconfirmed_transactions chain0 = [] /\
  chain chain0 = chain pending1 /\
  mine 3 now1 pending1 = Done (MinedIndex 1, mined1) /\
  unconfirmed_transactions mined1 = [].
Proof.
  assert (Hpool : unconfirmed_transactions pending1 <> []) by discriminate.
  destruct mine_clears_pool as (_ & Hwith & Hmine).
  destruct (Hwith add_block_four_zeros 3%nat now1 pending1 MinedFalse chain0
              add_block_four_zeros_keeps_pool Hpool run_mine1_refused) as (Hp & Hc & _).
  exact (conj eq_refl (conj run_mine1_refused (conj Hp (conj (Hc eq_refl)
          (conj run_mine1 (Hmine 3%nat now1 pending1 (MinedIndex 1) mined1 Hpool run_mine1)))))).
Defined.

(** C7.  A call of [mine] that returns an index leaves the pool empty and
    the chain one block longer; a call on an empty pool returns [False]
    and the chain object as it was. *)
Theorem mine_pool_lifecycle (fuel : nat) (now : string) (bc : Blockchain) :
  (forall (i : Z) (bc' : Blockchain),
     mine fuel now bc = Done (MinedIndex i, bc') ->
     unconfirmed_transactions bc' = [] /\
     List.length (chain bc') = S (List.length (chain bc))) /\
  (unconfirmed_transactions bc = [] -> mine fuel now bc = Done (MinedFalse, bc)).
Proof.
  split; [|apply mine_empty].
  intros i bc' H.
  mine_cases H tip tip_hash n Ht Hh; [discriminate|].
  cbn [unconfirmed_transactions chain]. split; [reflexivity|].
  rewrite length_app. cbn [List.length]. lia.
Qed.

Lemma mine_pool_lifecycle_witness :
  (mine 3 now1 pending1 = Done (MinedIndex 1, mined1) /\
   unconfirmed_transactions mined1 = [] /\
   List.length (chain mined1) = S (List.length (chain pending1))) /\
  (unconfirmed_transactions mined1 = [] /\
   mine 3 now2 mined1 = Done (MinedFalse, mined1)).
Proof.
  exact (conj (conj run_mine1
                    (proj1 (mine_pool_lifecycle 3 now1 pending1) 1 mined1 run_mine1))
              (conj eq_refl (proj2 (mine_pool_lifecycle 3 now2 mined1) eq_refl))).
Defined.

(** C6.  In every chain made by [Blockchain()], [add_new_transaction] and
    [mine], each block after the first names the hash stored in the block
    before it, that stored hash being the hash of the earlier block's
    other attributes, and its index is the earlier block's index plus 1. *)
Theorem mined_chain_linkage (bc : Blockchain) (i : nat) (prev cur : Block) :
  reachable bc ->
  nth_error (chain bc) i = Some prev ->
  nth_error (chain bc) (S i) = Some cur ->
  (exists fingerprint,
     hash prev = Some fingerprint /\
     fingerprint = compute_hash (clear_hash prev) /\
     previous_hash cur = JStr fingerprint) /\
  index cur = index prev + 1.
Proof.
  intros Hr Hp Hc.
  destruct (reachable_chain_ok bc Hr) as [Hs Hl].
  destruct (Hl i prev cur Hp Hc) as (h & Hh & Hprev & Hidx).
  split; [|exact Hidx].
  exists h. repeat split; try assumption.
  apply nth_error_In in Hp. rewrite Forall_forall in Hs.
  specialize (Hs prev Hp). unfold sealed in Hs. congruence.
Qed.

Lemma mined_chain_linkage_witness :
  reachable mined2 /\
  nth_error (chain mined2) 1 = Some block1 /\
  nth_error (chain mined2) 2 = Some block2 /\
  (exists fingerprint,
     hash block1 = Some fingerprint /\
     fingerprint = compute_hash (clear_hash block1) /\
     previous_hash block2 = JStr fingerprint) /\
  index block2 = index block1 + 1.
Proof.
  exact (conj reachable_mined2 (conj eq_refl (conj eq_refl
          (mined_chain_linkage mined2 1 block1 block2 reachable_mined2 eq_refl eq_refl)))).
Defined.


(** * Further properties of the code *)

(** ** Growth of the chain *)

Lemma exec_grows (c : call) (bc bc' : Blockchain) :
  exec c bc = Done bc' ->
  exists added, chain bc' = chain bc ++ added /\ (List.length added <= 1)%nat.
Proof.
  destruct c as [tx | fuel now | block proof]; cbn [exec]; intros H.
  - inversion H; subst. exists []. split; [now rewrite app_nil_r | cbn; lia].
  - destruct (mine fuel now bc) as [[r bc1]| |] eqn:Em; cbn [bind] in H; try discriminate.
    inversion H; subst bc1.
    mine_cases Em tip tip_hash n Ht Hh.
    + inversion Em; subst. exists []. split; [now rewrite app_nil_r | cbn; lia].
    + eexists [_]. split; [reflexivity | cbn; lia].
  - destruct (add_block bc block proof) as [[ok bc1]| |] eqn:Ea; cbn [bind] in H;
      try discriminate.
    inversion H; subst bc1. unfold add_block in Ea.
    destruct (last_block bc) as [tip| |]; cbn [bind] in Ea; try discriminate.
    destruct (get_hash tip) as [h| |]; cbn [bind] in Ea; try discriminate.
    destruct (negb (str_eq h (previous_hash block))).
    + inversion Ea; subst. exists []. split; [now rewrite app_nil_r | cbn; lia].
    + destruct (negb (is_valid_proof block proof)); inversion Ea; subst.
      * exists []. split; [now rewrite app_nil_r | cbn; lia].
      * eexists [_]. split; [reflexivity | cbn; lia].
Qed.

(** X1.  Whatever calls of [add_new_transaction] and [mine] are made, and
    in whatever order, the chain only grows at its end, by at most one
    block per call: a block that is in the chain stays at its position,
    unchanged.  ([mine] hands [add_block] a [Block] it has just
    constructed, so the assignment [block.hash = proof] reaches no block
    of the chain.) *)
Theorem chain_is_append_only (calls : list call) (bc bc' : Blockchain) :
  forallb through_mine calls = true ->
  run calls bc = Done bc' ->
  (exists added, chain bc' = chain bc ++ added /\
                 (List.length added <= List.length calls)%nat) /\
  forall (i : nat) (b : Block),
    nth_error (chain bc) i = Some b -> nth_error (chain bc') i = Some b.
Proof.
  intros _ H.
  assert (Hadd : exists added, chain bc' = chain bc ++ added /\
                               (List.length added <= List.length calls)%nat).
  { revert bc H. induction calls as [|c calls IH]; intros bc H; cbn [run] in H.
    - inversion H; subst. exists []. split; [now rewrite app_nil_r | cbn; lia].
    - destruct (exec c bc) as [bc1| |] eqn:Ec; cbn [bind] in H; try discriminate.
      apply exec_grows in Ec as (a1 & E1 & L1).
      apply IH in H as (a2 & E2 & L2).
      exists (a1 ++ a2). rewrite E2, E1, <- app_assoc. split; [reflexivity|].
      rewrite length_app. cbn [List.length]. lia. }
  split; [exact Hadd|].
  destruct Hadd as (added & E & _). intros i b Hi. rewrite E.
  rewrite nth_error_app1; [exact Hi|].
  apply nth_error_Some. congruence.
Qed.

Lemma run_mined2 : run calls2 chain0 = Done mined2.
Proof.
  unfold calls2. cbn [run exec bind].
  change (add_new_transaction chain0 t1) with pending1. rewrite run_mine1. cbn [bind].
  change (add_new_transaction mined1 t2) with pending2. rewrite run_mine2. reflexivity.
Qed.

Lemma chain_is_append_only_witness :
  forallb through_mine calls2 = true /\
  run calls2 chain0 = Done mined2 /\
  nth_error (chain chain0) 0 = Some genesis0 /\
  nth_error (chain mined2) 0 = Some genesis0.
Proof.
  exact (conj eq_refl (conj run_mined2 (conj eq_refl
          (proj2 (chain_is_append_only calls2 chain0 mined2 eq_refl run_mined2)
                 0%nat genesis0 eq_refl)))).
Defined.

(** ** Transactions are neither lost nor duplicated *)

Lemma exec_conserves (c : call) (bc bc' : Blockchain) :
  through_mine c = true -> exec c bc = Done bc' ->
  committed bc' ++ pending bc'
  = committed bc ++ pending bc ++ map Transaction.loads_str (submitted [c]).
Proof.
  destruct c as [tx | fuel now | block proof]; cbn [exec through_mine submitted];
    intros Hc H; try discriminate.
  - inversion H; subst. unfold committed, pending, add_new_transaction.
    cbn [chain unconfirmed_transactions]. now rewrite map_app.
  - destruct (mine fuel now bc) as [[r bc1]| |] eqn:Em; cbn [bind] in H; try discriminate.
    inversion H; subst bc1. cbn [map]. rewrite app_nil_r.
    mine_cases Em tip tip_hash n Ht Hh.
    + now inversion Em; subst.
    + unfold committed, pending. cbn [chain unconfirmed_transactions map].
      rewrite flat_map_app, app_nil_r. cbn [flat_map]. rewrite app_nil_r.
      rewrite Epool. reflexivity.
Qed.

Lemma exec_blocks_of (c : call) (calls : list call) (bc bc' : Blockchain) :
  through_mine c = true -> exec c bc = Done bc' ->
  map transactions (chain bc') ++ fst (blocks_of calls (unconfirmed_transactions bc'))
  = map transactions (chain bc) ++ fst (blocks_of (c :: calls) (unconfirmed_transactions bc)) /\
  snd (blocks_of calls (unconfirmed_transactions bc'))
  = snd (blocks_of (c :: calls) (unconfirmed_transactions bc)).
Proof.
  destruct c as [tx | fuel now | block proof]; cbn [exec through_mine blocks_of];
    intros Hc H; try discriminate.
  - inversion H; subst. cbn [add_new_transaction chain unconfirmed_transactions].
    now split.
  - destruct (mine fuel now bc) as [[r bc1]| |] eqn:Em; cbn [bind] in H; try discriminate.
    inversion H; subst bc1.
    mine_cases Em tip tip_hash n Ht Hh.
    + inversion Em; subst. rewrite Epool. now split.
    + cbn [chain unconfirmed_transactions].
      destruct (blocks_of calls []) as [blocks pool'] eqn:E. cbn [fst snd].
      rewrite map_app, <- app_assoc. cbn [map app transactions set_hash set_nonce candidate
                                               Block_init].
      rewrite Epool. cbn [fst snd]. now split.
Qed.

(** X2.  Along any sequence of [add_new_transaction] and [mine] calls,
    every [mine] that finds transactions waiting moves the whole pool, in
    order, into the one block it appends and leaves the pool empty; a
    [mine] on an empty pool appends nothing.  So the lists of
    transactions of the blocks appended, and the pool at the end, are
    determined by the calls alone, and the transactions in the blocks
    followed by those in the pool are, before and after, the same list
    extended by the transactions submitted in between, in submission
    order: nothing is dropped, repeated or reordered. *)
Theorem transactions_are_conserved (calls : list call) (bc bc' : Blockchain) :
  forallb through_mine calls = true ->
  run calls bc = Done bc' ->
  map transactions (chain bc')
  = map transactions (chain bc) ++ fst (blocks_of calls (unconfirmed_transactions bc)) /\
  unconfirmed_transactions bc' = snd (blocks_of calls (unconfirmed_transactions bc)) /\
  committed bc' ++ pending bc'
  = committed bc ++ pending bc ++ map Transaction.loads_str (submitted calls).
Proof.
  intros Hc H. split; [|split].
  - revert bc Hc H. induction calls as [|c calls IH]; intros bc Hc H; cbn [run] in H.
    + inversion H; subst. cbn [blocks_of fst]. now rewrite app_nil_r.
    + cbn [forallb] in Hc. apply andb_true_iff in Hc as [Hc Hcs].
      destruct (exec c bc) as [bc1| |] eqn:Ec; cbn [bind] in H; try discriminate.
      rewrite (IH bc1 Hcs H). now apply exec_blocks_of.
  - revert bc Hc H. induction calls as [|c calls IH]; intros bc Hc H; cbn [run] in H.
    + inversion H; subst. reflexivity.
    + cbn [forallb] in Hc. apply andb_true_iff in Hc as [Hc Hcs].
      destruct (exec c bc) as [bc1| |] eqn:Ec; cbn [bind] in H; try discriminate.
      rewrite (IH bc1 Hcs H). now apply exec_blocks_of.
  - revert bc Hc H. induction calls as [|c calls IH]; intros bc Hc H; cbn [run] in H.
    + inversion H; subst. cbn [submitted map]. now rewrite app_nil_r.
    + cbn [forallb] in Hc. apply andb_true_iff in Hc as [Hc Hcs].
      destruct (exec c bc) as [bc1| |] eqn:Ec; cbn [bind] in H; try discriminate.
      rewrite (IH bc1 Hcs H), app_assoc, (exec_conserves c bc bc1 Hc Ec), <- !app_assoc.
      do 2 f_equal. rewrite <- map_app. f_equal.
      destruct c; reflexivity.
Qed.

Lemma transactions_are_conserved_witness :
  forallb through_mine calls2 = true /\
  run calls2 chain0 = Done mined2 /\
  map transactions (chain mined2)
  = [genesis_transactions; [Transaction.loads_str t1]; [Transaction.loads_str t2]] /\
  unconfirmed_transactions mined2 = [] /\
  committed mined2 ++ pending mined2
  = committed chain0 ++ pending chain0 ++ map Transaction.loads_str [t1; t2].
Proof.
  exact (conj eq_refl (conj run_mined2
          (transactions_are_conserved calls2 chain0 mined2 eq_refl run_mined2))).
Defined.

(** ** What the blocks of a chain look like *)

Lemma nth_error_snoc (l : list Block) (b x : Block) (i : nat) :
  nth_error (l ++ [b]) i = Some x ->
  nth_error l i = Some x \/ (i = List.length l /\ x = b).
Proof.
  intros H. destruct (Nat.lt_ge_cases i (List.length l)) as [Hlt|Hge].
  - left. now rewrite nth_error_app1 in H.
  - right. rewrite nth_error_app2 in H by exact Hge.
    destruct (i - List.length l)%nat as [|k] eqn:E; cbn in H.
    + inversion H. split; [lia | reflexivity].
    + now destruct k.
Qed.

Lemma last_block_nth (bc : Blockchain) (tip : Block) :
  last_block bc = Done tip ->
  exists n, List.length (chain bc) = S n /\ nth_error (chain bc) n = Some tip.
Proof.
  destruct bc as [pool ch]. cbn [chain]. intros H.
  assert (Hne : ch <> []) by (intros ->; discriminate).
  destruct (exists_last Hne) as (l & t & ->).
  rewrite last_block_snoc in H. inversion H; subst t.
  exists (List.length l). rewrite length_app. cbn [List.length]. split; [lia|].
  rewrite nth_error_app2, Nat.sub_diag by lia. reflexivity.
Qed.

Lemma mined_block_appended (cand : Block) (n : Z) :
  hash cand = None -> transactions cand <> [] -> first_nonce cand n ->
  mined_block (set_hash (set_nonce cand n) (compute_hash (set_nonce cand n))).
Proof.
  intros Hnone Htx (Hn & Hy & Hlt).
  exists (compute_hash (set_nonce cand n)).
  assert (Hc : clear_hash (set_hash (set_nonce cand n) (compute_hash (set_nonce cand n)))
               = set_nonce cand n).
  { unfold clear_hash, set_hash, set_nonce. cbn. now rewrite Hnone. }
  rewrite Hc. cbn [hash set_hash nonce set_nonce transactions].
  split; [reflexivity|]. split; [apply is_valid_proof_true; now split|].
  split; [exact Hn|]. split; [|exact Htx].
  intros m Hm. rewrite set_nonce_set_nonce. now apply Hlt.
Qed.

Lemma reachable_positions_ok (bc : Blockchain) : reachable bc -> positions_ok (chain bc).
Proof.
  induction 1 as [now | bc tx _ IH | bc fuel now r bc' _ IH Hmine].
  - intros [|[|i]] b Hb; try discriminate. inversion Hb; subst b.
    split; [reflexivity | now exists now].
  - exact IH.
  - destruct (unconfirmed_transactions bc) as [|tx pool] eqn:Epool.
    { rewrite mine_empty in Hmine by assumption. now inversion Hmine; subst. }
    apply mine_nonempty in Hmine as (tip & tip_hash & n & Ht & Hh & Hfirst & _ & ->);
      [|congruence].
    cbn [chain]. intros i b Hb.
    apply nth_error_snoc in Hb as [Hb | [-> ->]]; [now apply IH|].
    apply last_block_nth in Ht as (k & Hlen & Hk).
    destruct (IH k tip Hk) as [Hidx _]. rewrite Hlen. split.
    + cbn [index set_hash set_nonce candidate Block_init]. rewrite Hidx. lia.
    + apply mined_block_appended; [reflexivity | | exact Hfirst].
      cbn [transactions candidate Block_init]. rewrite Epool. discriminate.
Qed.

Lemma block_index_is_position_aux (bc : Blockchain) (i : nat) (b : Block) :
  reachable bc -> nth_error (chain bc) i = Some b -> index b = Z.of_nat i.
Proof. intros Hr Hb. exact (proj1 (reachable_positions_ok bc Hr i b Hb)). Qed.

(** X3.  In a chain made by [Blockchain()], [add_new_transaction] and
    [mine], the [index] of every block is its position in the chain. *)
Theorem block_index_is_position (bc : Blockchain) (i : nat) (b : Block) :
  reachable bc -> nth_error (chain bc) i = Some b -> index b = Z.of_nat i.
Proof. apply block_index_is_position_aux. Qed.

Lemma block_index_is_position_witness :
  reachable mined2 /\ nth_error (chain mined2) 2 = Some block2 /\ index block2 = 2.
Proof.
  exact (conj reachable_mined2 (conj eq_refl
          (block_index_is_position mined2 2 block2 reachable_mined2 eq_refl))).
Defined.

(** X4.  The first block of such a chain is always the genesis block that
    [create_genesis_block] made at some clock reading: index 0, the marker
    transaction, previous hash the integer 0, nonce 0, and as stored hash
    the hash of those attributes, accepted without any difficulty test. *)
Theorem first_block_is_genesis (bc : Blockchain) :
  reachable bc ->
  exists (now : string) (rest : list Block),
    chain bc = genesis_at now :: rest /\
    index (genesis_at now) = 0 /\
    transactions (genesis_at now) = [JDict [("transaction", JStr "Genesis Block")]] /\
    previous_hash (genesis_at now) = JInt 0 /\
    nonce (genesis_at now) = 0 /\
    timestamp (genesis_at now) = now /\
    hash (genesis_at now) = Some (compute_hash (clear_hash (genesis_at now))).
Proof.
  intros Hr. pose proof (reachable_positions_ok bc Hr) as Hp.
  destruct (reachable_tip bc Hr) as (tip & h & Ht & _).
  destruct (chain bc) as [|g rest] eqn:E.
  - unfold last_block in Ht. rewrite E in Ht. discriminate.
  - destruct (Hp 0%nat g eq_refl) as [_ [now ->]].
    exists now, rest. repeat split.
Qed.

Lemma first_block_is_genesis_witness :
  reachable mined2 /\
  exists (now : string) (rest : list Block), chain mined2 = genesis_at now :: rest.
Proof.
  split; [exact reachable_mined2|].
  destruct (first_block_is_genesis mined2 reachable_mined2) as (now & rest & E & _).
  now exists now, rest.
Defined.

(** X5.  Every later block of such a chain carries a stored hash that
    [is_valid_proof] accepts for the block as it was when [add_block]
    checked it (before the hash was assigned), a nonce that is the first
    one from 0 upwards to reach the target prefix, and at least one
    transaction: [mine] never appends an empty block. *)
Theorem later_blocks_are_mined (bc : Blockchain) (i : nat) (b : Block) :
  reachable bc -> nth_error (chain bc) (S i) = Some b ->
  exists h,
    hash b = Some h /\
    is_valid_proof (clear_hash b) h = true /\
    0 <= nonce b /\
    (forall m, 0 <= m < nonce b ->
       startswith (compute_hash (set_nonce (clear_hash b) m)) (str_mul "0" DIFFICULTY)
       = false) /\
    transactions b <> [].
Proof. intros Hr Hb. exact (proj2 (reachable_positions_ok bc Hr (S i) b Hb)). Qed.

Lemma later_blocks_are_mined_witness :
  reachable mined2 /\ nth_error (chain mined2) 1 = Some block1 /\
  is_valid_proof (clear_hash block1) block1_hash = true /\
  startswith (compute_hash (set_nonce (clear_hash block1) 1)) (str_mul "0" DIFFICULTY)
  = false.
Proof.
  split; [exact reachable_mined2|]. split; [reflexivity|].
  destruct (later_blocks_are_mined mined2 0 block1 reachable_mined2 eq_refl)
    as (h & Hh & Hv & _ & Hlt & _).
  inversion Hh; subst h. split; [exact Hv|].
  apply Hlt. cbn. lia.
Defined.

(** X6.  When [mine] returns an index on such a chain, that index is the
    length the chain had, the chain is one block longer, and the block at
    that position holds the whole pool in submission order, the clock
    reading of the call and the stored hash of the former tip. *)
Theorem mine_returns_position (fuel : nat) (now : string) (bc : Blockchain)
    (i : Z) (bc' : Blockchain) :
  reachable bc ->
  mine fuel now bc = Done (MinedIndex i, bc') ->
  i = Z.of_nat (List.length (chain bc)) /\
  List.length (chain bc') = S (List.length (chain bc)) /\
  exists (b tip : Block) (tip_hash : string),
    nth_error (chain bc') (List.length (chain bc)) = Some b /\
    index b = i /\
    transactions b = map Transaction.loads_str (unconfirmed_transactions bc) /\
    timestamp b = now /\
    last_block bc = Done tip /\ hash tip = Some tip_hash /\
    previous_hash b = JStr tip_hash.
Proof.
  intros Hr H.
  destruct (unconfirmed_transactions bc) as [|tx pool] eqn:Epool.
  { rewrite mine_empty in H by assumption. discriminate. }
  apply mine_nonempty in H as (tip & tip_hash & n & Ht & Hh & _ & Hi & ->); [|congruence].
  inversion Hi; subst i. cbn [chain].
  destruct (last_block_nth bc tip Ht) as (k & Hlen & Hk).
  rewrite (block_index_is_position_aux bc k tip Hr Hk), Hlen.
  split; [lia|]. split; [rewrite length_app; cbn [List.length]; lia|].
  eexists _, tip, tip_hash.
  rewrite nth_error_app2, <- Hlen, Nat.sub_diag by lia.
  split; [reflexivity|]. cbn [index set_hash set_nonce candidate Block_init].
  rewrite (block_index_is_position_aux bc k tip Hr Hk).
  repeat split; try assumption; try lia. now rewrite Epool.
Qed.

Lemma mine_returns_position_witness :
  reachable pending1 /\ mine 3 now1 pending1 = Done (MinedIndex 1, mined1) /\
  1 = Z.of_nat (List.length (chain pending1)) /\
  List.length (chain mined1) = S (List.length (chain pending1)).
Proof.
  pose proof (mine_returns_position 3 now1 pending1 1 mined1 reachable_pending1 run_mine1)
    as (Hi & Hlen & _).
  exact (conj reachable_pending1 (conj run_mine1 (conj Hi Hlen))).
Defined.

Lemma first_nonce_cand1 : first_nonce cand1 2.
Proof.
  destruct (proof_of_work_sound 3 cand1 block1_hash (set_nonce cand1 2) run_pow1)
    as (n & Hfirst & _ & Hb & _).
  assert (Hn : n = 2) by (apply (f_equal nonce) in Hb; cbn in Hb; congruence).
  now subst n.
Qed.

(** ** Errors *)

Lemma tip_cases (bc : Blockchain) :
  (chain bc = [] /\ last_block bc = Raise IndexError) \/
  (exists tip, last_block bc = Done tip /\ chain bc <> []).
Proof.
  unfold last_block. destruct (chain bc) as [|x l].
  - left. now split.
  - right. exists (last l x). split; [reflexivity | discriminate].
Qed.

Lemma pow_loop_never_raises (fuel : nat) : forall (blk : Block) (h : string) (e : exn),
  pow_loop fuel blk h <> Raise e.
Proof.
  induction fuel as [|fuel IH]; intros blk h e; [discriminate|].
  rewrite pow_loop_step. destruct (startswith h target); [discriminate | apply IH].
Qed.

Lemma add_block_raises (bc : Blockchain) (e : exn) (block : Block) (proof : string) :
  add_block bc block proof = Raise e <->
  (chain bc = [] /\ e = IndexError) \/
  (exists tip, last_block bc = Done tip /\ hash tip = None /\ e = AttributeError).
Proof.
  destruct (tip_cases bc) as [[Hnil Ht] | (tip & Ht & Hne)].
  - unfold add_block. rewrite Ht. cbn [bind]. split.
    + intros H. inversion H. left. now split.
    + intros [[_ ->] | (tip & Ht' & _)]; [reflexivity | congruence].
  - destruct (hash tip) as [h|] eqn:Eh.
    + rewrite (add_block_spec bc tip h block proof Ht Eh). split.
      * destruct (str_eq h (previous_hash block) && is_valid_proof block proof);
          discriminate.
      * intros [[Hnil _] | (tip' & Ht' & Hn & _)]; [contradiction | congruence].
    + unfold add_block, get_hash. rewrite Ht. cbn [bind]. rewrite Eh. cbn [bind]. split.
      * intros H. inversion H. right. exists tip. now repeat split.
      * intros [[Hnil _] | (tip' & _ & _ & ->)]; [contradiction | reflexivity].
Qed.

Lemma mine_raises (bc : Blockchain) (e : exn) (fuel : nat) (now : string) :
  mine fuel now bc = Raise e <->
  unconfirmed_transactions bc <> [] /\
  ((chain bc = [] /\ e = IndexError) \/
   (exists tip, last_block bc = Done tip /\ hash tip = None /\ e = AttributeError)).
Proof.
  destruct (unconfirmed_transactions bc) as [|tx pool] eqn:Epool.
  { rewrite mine_empty by assumption. split; [discriminate | intros [H _]; now destruct H]. }
  assert (Hpool : tx :: pool <> []) by discriminate.
  unfold mine, mine_with. rewrite Epool.
  destruct (tip_cases bc) as [[Hnil Ht] | (tip & Ht & Hne)].
  - rewrite Ht. cbn [bind]. split.
    + intros H. inversion H. split; [exact Hpool|]. left. now split.
    + intros [_ [[_ ->] | (tip & Ht' & _)]]; [reflexivity | congruence].
  - rewrite Ht. cbn [bind]. unfold get_hash. destruct (hash tip) as [h|] eqn:Eh; cbn [bind].
    + split.
      * intros H.
        destruct (proof_of_work fuel _) as [[proof nb]| |] eqn:Epow; cbn [bind] in H;
          try discriminate; [|now apply pow_loop_never_raises in Epow].
        assert (Hlast : last_block (MkChain [] (chain bc)) = Done tip) by exact Ht.
        rewrite (add_block_spec _ tip h nb proof Hlast Eh) in H.
        destruct (str_eq h (previous_hash nb) && is_valid_proof nb proof);
          discriminate.
      * intros [_ [[Hnil _] | (tip' & Ht' & Hn & _)]]; [contradiction | congruence].
    + split.
      * intros H. inversion H. split; [exact Hpool|]. right. exists tip. now repeat split.
      * intros [_ [[Hnil _] | (tip' & _ & _ & ->)]]; [contradiction | reflexivity].
Qed.

(** X7.  On arguments within the interpreter's limits ([proof] a string,
    the fields of [block] integers of at most 4300 digits, strings, and
    lists and dictionaries of these nested at most 100 deep),
    [add_block] raises [IndexError] exactly when the chain is empty
    ([self.chain[-1]]) and [AttributeError] exactly when the last block
    has no [hash] attribute, and returns otherwise.  [mine] does the same
    when the pool is not empty, its transactions having strings for
    [sender], [receiver] and [data] and integers of at most 4300 digits
    for [amount], and the index of the next block being within the limit
    too; on an empty pool it raises neither. *)
Theorem raises_exactly_without_hashed_tip (bc : Blockchain) (e : exn) :
  (forall (block : Block) (proof : string),
     dumpable (JDict (Block_dict block)) = true ->
     add_block bc block proof = Raise e <->
     (chain bc = [] /\ e = IndexError) \/
     (exists tip, last_block bc = Done tip /\ hash tip = None /\ e = AttributeError)) /\
  (forall (fuel : nat) (now : string),
     forallb transaction_dumpable (unconfirmed_transactions bc) = true ->
     (forall tip, last_block bc = Done tip -> int_within_limit (index tip + 1) = true) ->
     mine fuel now bc = Raise e <->
     unconfirmed_transactions bc <> [] /\
     ((chain bc = [] /\ e = IndexError) \/
      (exists tip, last_block bc = Done tip /\ hash tip = None /\ e = AttributeError))).
Proof.
  split; [intros block proof _; apply add_block_raises
         | intros fuel now _ _; apply mine_raises].
Qed.

Lemma raises_exactly_without_hashed_tip_witness :
  dumpable (JDict (Block_dict block42)) = true /\
  add_block no_block block42 proof42 = Raise IndexError /\
  add_block unsealed_tip block42 proof42 = Raise AttributeError /\
  forallb transaction_dumpable (unconfirmed_transactions unsealed_tip) = true /\
  int_within_limit (index genesis_unsealed + 1) = true /\
  mine 1 now1 no_block = Raise IndexError /\
  mine 1 now1 unsealed_tip = Raise AttributeError.
Proof.
  assert (Hd : dumpable (JDict (Block_dict block42)) = true) by reflexivity.
  assert (Hi : forall tip, last_block no_block = Done tip ->
                           int_within_limit (index tip + 1) = true)
    by (intros tip H; discriminate H).
  assert (Ha : forall tip, last_block unsealed_tip = Done tip ->
                           int_within_limit (index tip + 1) = true)
    by (intros tip H; inversion H; reflexivity).
  assert (Hp : unconfirmed_transactions no_block <> []) by discriminate.
  assert (Hq : unconfirmed_transactions unsealed_tip <> []) by discriminate.
  exact (conj Hd
    (conj (proj2 (proj1 (raises_exactly_without_hashed_tip no_block IndexError)
                        block42 proof42 Hd)
                 (or_introl (conj eq_refl eq_refl)))
    (conj (proj2 (proj1 (raises_exactly_without_hashed_tip unsealed_tip AttributeError)
                        block42 proof42 Hd)
                 (or_intror (ex_intro _ genesis_unsealed
                               (conj eq_refl (conj eq_refl eq_refl)))))
    (conj eq_refl (conj eq_refl
    (conj (proj2 (proj2 (raises_exactly_without_hashed_tip no_block IndexError)
                        1%nat now1 eq_refl Hi)
                 (conj Hp (or_introl (conj eq_refl eq_refl))))
          (proj2 (proj2 (raises_exactly_without_hashed_tip unsealed_tip AttributeError)
                        1%nat now1 eq_refl Ha)
                 (conj Hq (or_intror (ex_intro _ genesis_unsealed
                                        (conj eq_refl (conj eq_refl eq_refl)))))))))))).
Defined.

(** X8.  On a chain made by [Blockchain()], [add_new_transaction] and
    [mine], and on arguments within the interpreter's limits, neither
    [add_block] nor [mine] raises: [add_block] returns [True] or
    [False] for every string [proof] and every block whose fields are
    integers of at most 4300 digits, strings, and lists and dictionaries
    of these nested at most 100 deep; [mine] does not raise when the
    pooled transactions have strings for [sender], [receiver] and [data]
    and integers of at most 4300 digits for [amount], and the length of
    the chain is within that limit. *)
Theorem no_exception_on_built_chain (bc : Blockchain) :
  reachable bc ->
  (forall (block : Block) (proof : string),
     dumpable (JDict (Block_dict block)) = true ->
     exists (ok : bool) (bc' : Blockchain), add_block bc block proof = Done (ok, bc')) /\
  (forall (fuel : nat) (now : string) (e : exn),
     forallb transaction_dumpable (unconfirmed_transactions bc) = true ->
     int_within_limit (Z.of_nat (List.length (chain bc))) = true ->
     mine fuel now bc <> Raise e).
Proof.
  intros Hr. destruct (reachable_tip bc Hr) as (tip & h & Ht & Hh). split.
  - intros block proof _. rewrite (add_block_spec bc tip h block proof Ht Hh).
    destruct (str_eq h (previous_hash block) && is_valid_proof block proof);
      eexists _, _; reflexivity.
  - intros fuel now e _ _ H.
    apply mine_raises in H as [_ [[Hnil _] | (tip' & Ht' & Hn & _)]].
    + unfold last_block in Ht. rewrite Hnil in Ht. discriminate.
    + congruence.
Qed.

Lemma no_exception_on_built_chain_witness :
  reachable chain0 /\
  dumpable (JDict (Block_dict genesis_unsealed)) = true /\
  (exists (ok : bool) (bc' : Blockchain),
     add_block chain0 genesis_unsealed proof42 = Done (ok, bc')) /\
  forallb transaction_dumpable (unconfirmed_transactions pending1) = true /\
  int_within_limit (Z.of_nat (List.length (chain pending1))) = true /\
  mine 0 now1 pending1 <> Raise IndexError.
Proof.
  exact (conj reachable_chain0 (conj eq_refl
          (conj (proj1 (no_exception_on_built_chain chain0 reachable_chain0)
                       genesis_unsealed proof42 eq_refl)
          (conj eq_refl (conj eq_refl
                (proj2 (no_exception_on_built_chain pending1 reachable_pending1)
                       0%nat now1 IndexError eq_refl eq_refl)))))).
Defined.

(** ** The search and the mining call, once more *)

(** X9.  Running [proof_of_work] again on the block a search left behind
    finds the same nonce and the same hash, and so does any search on the
    original block that is allowed at least as many loop tests. *)
Theorem proof_of_work_is_repeatable (fuel fuel' : nat) (block : Block)
    (h : string) (block' : Block) :
  proof_of_work fuel block = Done (h, block') ->
  (fuel <= fuel')%nat ->
  proof_of_work fuel' block' = Done (h, block') /\
  proof_of_work fuel' block = Done (h, block').
Proof.
  intros H Hle.
  apply proof_of_work_sound in H as (n & Hfirst & Hfuel & -> & ->).
  assert (Hb : proof_of_work fuel' block
               = Done (compute_hash (set_nonce block n), set_nonce block n))
    by (apply proof_of_work_complete; [exact Hfirst | lia]).
  split; [exact Hb | exact Hb].
Qed.

Lemma proof_of_work_is_repeatable_witness :
  proof_of_work 3 cand1 = Done (block1_hash, set_nonce cand1 2) /\
  (3 <= 10)%nat /\
  proof_of_work 10 (set_nonce cand1 2) = Done (block1_hash, set_nonce cand1 2).
Proof.
  assert (Hle : (3 <= 10)%nat) by lia.
  exact (conj run_pow1 (conj Hle
          (proj1 (proof_of_work_is_repeatable 3 10 cand1 block1_hash (set_nonce cand1 2)
                    run_pow1 Hle)))).
Defined.

(** X10.  [mine] returns [False] only for an empty pool, and then leaves
    everything as it was: with a non-empty pool the [add_block] inside
    [mine] always accepts, so the final [return False] is never reached. *)
Theorem mine_false_only_on_empty_pool (fuel : nat) (now : string) (bc bc' : Blockchain) :
  mine fuel now bc = Done (MinedFalse, bc') <->
  unconfirmed_transactions bc = [] /\ bc' = bc.
Proof.
  split.
  - intros H. destruct (unconfirmed_transactions bc) as [|tx pool] eqn:Epool.
    + rewrite mine_empty in H by assumption. inversion H. now split.
    + apply mine_nonempty in H as (tip & tip_hash & n & _ & _ & _ & Hr & _); [|congruence].
      discriminate.
  - intros [Hpool ->]. now apply mine_empty.
Qed.

(** X11.  On a chain whose tip carries a hash and with a non-empty pool,
    [mine] returns as soon as the loop is allowed more tests than the
    first good nonce of its candidate: it returns the tip's index plus 1
    and appends the candidate with that nonce and the hash found there. *)
Theorem mine_returns_with_enough_fuel (fuel : nat) (now : string) (bc : Blockchain)
    (tip : Block) (tip_hash : string) (n : Z) :
  unconfirmed_transactions bc <> [] ->
  last_block bc = Done tip -> hash tip = Some tip_hash ->
  0 <= n ->
  startswith (compute_hash (set_nonce (candidate now tip tip_hash
                                         (unconfirmed_transactions bc)) n))
             (str_mul "0" DIFFICULTY) = true ->
  (forall m, 0 <= m < n ->
     startswith (compute_hash (set_nonce (candidate now tip tip_hash
                                            (unconfirmed_transactions bc)) m))
                (str_mul "0" DIFFICULTY) = false) ->
  (Z.to_nat n < fuel)%nat ->
  mine fuel now bc
  = Done (MinedIndex (index tip + 1),
          MkChain [] (chain bc ++
            [MkBlock (index tip + 1)
                     (map Transaction.loads_str (unconfirmed_transactions bc))
                     now (JStr tip_hash) n
                     (Some (compute_hash
                              (set_nonce (candidate now tip tip_hash
                                            (unconfirmed_transactions bc)) n)))])).
Proof.
  intros Hpool Ht Hh Hn Hy Hlt Hfuel.
  apply (mine_returns fuel now bc tip tip_hash n Hpool Ht Hh); [|exact Hfuel].
  now repeat split.
Qed.

Lemma mine_returns_with_enough_fuel_witness :
  unconfirmed_transactions pending1 <> [] /\
  last_block pending1 = Done genesis0 /\ hash genesis0 = Some genesis_hash /\
  0 <= 2 /\ (Z.to_nat 2 < 3)%nat /\
  mine 3 now1 pending1
  = Done (MinedIndex (index genesis0 + 1),
          MkChain [] (chain pending1 ++
            [MkBlock (index genesis0 + 1) (map Transaction.loads_str [t1])
                     now1 (JStr genesis_hash) 2
                     (Some (compute_hash (set_nonce cand1 2)))])).
Proof.
  assert (Hpool : unconfirmed_transactions pending1 <> []) by discriminate.
  assert (Hn : 0 <= 2) by lia.
  assert (Hfuel : (Z.to_nat 2 < 3)%nat) by (cbn; lia).
  destruct first_nonce_cand1 as (_ & Hy & Hlt).
  exact (conj Hpool (conj eq_refl (conj eq_refl (conj Hn (conj Hfuel
          (mine_returns_with_enough_fuel 3 now1 pending1 genesis0 genesis_hash 2
             Hpool eq_refl eq_refl Hn Hy Hlt Hfuel)))))).
Defined.

(** ** The shape of a digest *)

Lemma compress_length (h block : list Z) :
  List.length h = 8%nat -> List.length (SHA256.compress h block) = 8%nat.
Proof.
  intros Hh. unfold SHA256.compress. rewrite length_map, length_combine, Hh. reflexivity.
Qed.

Lemma fold_compress_length (bs : list (list Z)) : forall h : list Z,
  List.length h = 8%nat -> List.length (fold_left SHA256.compress bs h) = 8%nat.
Proof.
  induction bs as [|b bs IH]; intros h Hh; cbn [fold_left]; [exact Hh|].
  apply IH. now apply compress_length.
Qed.

Lemma land_255_is_byte (x : Z) : is_byte (Z.land x 0xFF).
Proof.
  unfold is_byte. change 0xFF with (Z.ones 8). rewrite Z.land_ones by lia.
  change (2 ^ 8) with 256. apply Z.mod_pos_bound. lia.
Qed.

Lemma bytes_of_words_shape (ws : list Z) :
  List.length (flat_map SHA256.bytes_of_word ws) = (4 * List.length ws)%nat /\
  Forall is_byte (flat_map SHA256.bytes_of_word ws).
Proof.
  induction ws as [|w ws [IHl IHb]]; [split; [reflexivity | constructor]|].
  cbn [flat_map]. rewrite length_app, IHl. split; [cbn [List.length SHA256.bytes_of_word]; lia|].
  apply Forall_app. split; [|exact IHb].
  unfold SHA256.bytes_of_word. repeat constructor; apply land_255_is_byte.
Qed.

Lemma hex_digit_is_lower_hex (n : Z) : 0 <= n < 16 -> is_lower_hex (SHA256.hex_digit n) = true.
Proof.
  intros H. rewrite <- (Z2Nat.id n) by lia.
  assert (Hk : (Z.to_nat n < 16)%nat) by lia.
  revert Hk. generalize (Z.to_nat n). intros k Hk.
  do 16 (destruct k as [|k]; [reflexivity|]). lia.
Qed.

Lemma hex_of_bytes_shape (bs : list Z) :
  Forall is_byte bs ->
  String.length (SHA256.hex_of_bytes bs) = (2 * List.length bs)%nat /\
  string_forall is_lower_hex (SHA256.hex_of_bytes bs) = true.
Proof.
  induction 1 as [|b bs Hb _ [IHl IHc]]; [split; reflexivity|].
  cbn [SHA256.hex_of_bytes String.length string_forall List.length].
  rewrite IHl, IHc. split; [lia|].
  unfold is_byte in Hb.
  rewrite !hex_digit_is_lower_hex; [reflexivity | |].
  - change 0xF with (Z.ones 4). rewrite Z.land_ones by lia.
    change (2 ^ 4) with 16. apply Z.mod_pos_bound. lia.
  - rewrite Z.shiftr_div_pow2 by lia. change (2 ^ 4) with 16.
    split; [apply Z.div_pos; lia | apply Z.div_lt_upper_bound; lia].
Qed.

Lemma hexdigest_shape (data : list Z) :
  String.length (SHA256.hexdigest data) = 64%nat /\
  string_forall is_lower_hex (SHA256.hexdigest data) = true.
Proof.
  unfold SHA256.hexdigest, SHA256.digest_bytes.
  set (ws := fold_left SHA256.compress _ SHA256.H0).
  assert (Hws : List.length ws = 8%nat) by (apply fold_compress_length; reflexivity).
  destruct (bytes_of_words_shape ws) as [Hl Hb].
  destruct (hex_of_bytes_shape _ Hb) as [Hl' Hc].
  rewrite Hl', Hl, Hws. split; [reflexivity | exact Hc].
Qed.

(** X12.  For every block whose fields the interpreter can write
    (integers of at most 4300 digits, strings, and lists and dictionaries
    of these nested at most 100 deep), [compute_hash] returns a string of
    exactly 64 characters, each one of [0123456789abcdef]; so
    [is_valid_proof] accepts no claimed hash of another length, and a hash
    that [add_block] stores has 64 characters. *)
Theorem compute_hash_is_64_hex_digits (block : Block) :
  dumpable (JDict (Block_dict block)) = true ->
  String.length (compute_hash block) = 64%nat /\
  string_forall is_lower_hex (compute_hash block) = true /\
  (forall claimed_hash : string,
     String.length claimed_hash <> 64%nat -> is_valid_proof block claimed_hash = false) /\
  (forall (bc bc' : Blockchain) (proof : string),
     add_block bc block proof = Done (true, bc') ->
     String.length proof = 64%nat /\ last_block bc' = Done (set_hash block proof)).
Proof.
  intros _.
  destruct (hexdigest_shape (SHA256.encode (block_string block))) as [Hl Hc].
  assert (Hv : forall h, String.length h <> 64%nat -> is_valid_proof block h = false).
  { intros h Hh. destruct (is_valid_proof block h) eqn:E; [|reflexivity].
    apply is_valid_proof_true in E as [_ ->]. contradiction. }
  split; [exact Hl|]. split; [exact Hc|]. split; [exact Hv|].
  intros bc bc' proof H. unfold add_block in H.
  destruct (last_block bc) as [tip| |]; cbn [bind] in H; try discriminate.
  destruct (get_hash tip) as [h| |]; cbn [bind] in H; try discriminate.
  destruct (negb (str_eq h (previous_hash block))); [discriminate|].
  destruct (is_valid_proof block proof) eqn:E; cbn [negb] in H; [|discriminate].
  inversion H; subst bc'. split; [|apply last_block_snoc].
  destruct (Nat.eq_dec (String.length proof) 64) as [E64|N64]; [exact E64|].
  rewrite (Hv proof N64) in E. discriminate.
Qed.

Lemma compute_hash_is_64_hex_digits_witness :
  dumpable (JDict (Block_dict block42)) = true /\
  String.length (compute_hash block42) = 64%nat /\
  is_valid_proof block42 "000" = false.
Proof.
  assert (Hne : String.length "000" <> 64%nat) by discriminate.
  destruct (compute_hash_is_64_hex_digits block42 eq_refl) as (Hl & _ & Hv & _).
  exact (conj eq_refl (conj Hl (Hv "000"%string Hne))).
Defined.

(** ** The decoder on small texts *)

Example loads_examples :
  JsonText.loads " [1, -20 ,[ ] , {} ] " = Some (JList [JInt 1; JInt (-20); JList []; JDict []]) /\
  JsonText.loads "[1,]" = None /\
  JsonText.loads "01" = None /\
  JsonText.loads "-0" = Some (JInt 0) /\
  JsonText.loads "1.5" = None /\
  JsonText.loads "[1e5]" = None /\
  JsonText.loads "1 2" = None /\
  JsonText.loads "{1: 2}" = None /\
  JsonText.loads "-" = None /\
  JsonText.loads "[[[[7]]]]" = Some (JList [JList [JList [JList [JInt 7]]]]).
Proof. vm_compute. repeat split. Qed.

(** ** Strings and the values of the encoder *)

Lemma append_assoc (a b c : string) : ((a ++ b) ++ c = a ++ (b ++ c))%string.
Proof. induction a as [|x a IH]; cbn; [reflexivity | now rewrite IH]. Qed.

Lemma append_nil_r (a : string) : (a ++ EmptyString)%string = a.
Proof. induction a as [|x a IH]; cbn; [reflexivity | now rewrite IH]. Qed.

Lemma length_append (a b : string) :
  String.length (a ++ b) = (String.length a + String.length b)%nat.
Proof. induction a as [|x a IH]; cbn; [reflexivity | now rewrite IH]. Qed.

Lemma string_forall_append (p : ascii -> bool) (a b : string) :
  string_forall p (a ++ b) = string_forall p a && string_forall p b.
Proof.
  induction a as [|x a IH]; cbn [append string_forall]; [reflexivity|].
  now rewrite IH, andb_assoc.
Qed.

(** Induction on values, through the lists and dictionaries they hold. *)
Lemma json_induction (P : json -> Prop) :
  (forall z, P (JInt z)) ->
  (forall s, P (JStr s)) ->
  (forall l, Forall P l -> P (JList l)) ->
  (forall d, Forall (fun kv => P (snd kv)) d -> P (JDict d)) ->
  forall v, P v.
Proof.
  intros Hint Hstr Hlist Hdict.
  fix IH 1. intros [z | s | l | d].
  - apply Hint.
  - apply Hstr.
  - apply Hlist. induction l as [|v l IHl]; constructor; [apply IH | exact IHl].
  - apply Hdict. induction d as [|[k v] d IHd]; constructor; [apply IH | exact IHd].
Qed.

(** ** What the encoder writes is printable ASCII *)

Lemma hex_digit_printable (n : Z) : 0 <= n < 16 -> is_printable (SHA256.hex_digit n) = true.
Proof.
  intros H. rewrite <- (Z2Nat.id n) by lia.
  assert (Hk : (Z.to_nat n < 16)%nat) by lia.
  revert Hk. generalize (Z.to_nat n). intros k Hk.
  do 16 (destruct k as [|k]; [reflexivity|]). lia.
Qed.

Lemma escape_char_printable (c : ascii) :
  string_forall is_printable (Json.escape_char c) = true.
Proof. destruct c as [[] [] [] [] [] [] [] []]; reflexivity. Qed.

Lemma escape_printable (s : string) : string_forall is_printable (Json.escape s) = true.
Proof.
  induction s as [|c s IH]; [reflexivity|].
  cbn [Json.escape]. now rewrite string_forall_append, escape_char_printable, IH.
Qed.

Lemma encode_basestring_printable (s : string) :
  string_forall is_printable (Json.encode_basestring_ascii s) = true.
Proof.
  unfold Json.encode_basestring_ascii.
  now rewrite !string_forall_append, escape_printable.
Qed.

Lemma string_of_uint_printable (d : Decimal.uint) :
  string_forall is_printable (NilEmpty.string_of_uint d) = true.
Proof. induction d; cbn [NilEmpty.string_of_uint string_forall]; [reflexivity | now rewrite IHd ..]. Qed.

Lemma int_repr_printable (z : Z) : string_forall is_printable (Json.int_repr z) = true.
Proof.
  unfold Json.int_repr, NilZero.string_of_int, NilZero.string_of_uint.
  destruct (Z.to_int z) as [d | d]; destruct d eqn:E; try reflexivity;
    rewrite <- E; cbn [string_forall]; rewrite ?string_of_uint_printable; reflexivity.
Qed.

Lemma join_printable (parts : list string) :
  Forall (fun p => string_forall is_printable p = true) parts ->
  string_forall is_printable (Json.join parts) = true.
Proof.
  induction 1 as [|p parts Hp Hparts IH]; [reflexivity|].
  destruct parts as [|q parts]; [exact Hp|].
  change (Json.join (p :: q :: parts)) with (p ++ ", " ++ Json.join (q :: parts))%string.
  now rewrite !string_forall_append, Hp, IH.
Qed.

Lemma item_text_printable (kv : string * string) :
  string_forall is_printable (snd kv) = true ->
  string_forall is_printable (Json.item_text kv) = true.
Proof.
  intros H. unfold Json.item_text.
  now rewrite !string_forall_append, encode_basestring_printable, H.
Qed.

Lemma insert_item_forall {A : Type} (P : string * A -> Prop) (kv : string * A)
    (items : list (string * A)) :
  P kv -> Forall P items -> Forall P (Json.insert_item kv items).
Proof.
  intros Hkv. induction 1 as [|x items Hx Hitems IH]; cbn [Json.insert_item].
  - now constructor.
  - destruct (String.leb (fst kv) (fst x)); constructor; auto.
Qed.

Lemma sort_items_forall {A : Type} (P : string * A -> Prop) (items : list (string * A)) :
  Forall P items -> Forall P (Json.sort_items items).
Proof.
  unfold Json.sort_items. induction 1; cbn [fold_right]; [constructor|].
  now apply insert_item_forall.
Qed.

Lemma dumps_printable (v : json) :
  string_forall is_printable (Json.dumps v) = true /\
  string_forall is_printable (JsonText.dumps v) = true.
Proof.
  induction v as [z | s | l IH | d IH] using json_induction;
    cbn [Json.dumps JsonText.dumps].
  - split; apply int_repr_printable.
  - split; apply encode_basestring_printable.
  - split; rewrite !string_forall_append; cbn [string_forall andb is_printable];
      rewrite join_printable; try reflexivity; apply Forall_map;
      (eapply Forall_impl; [|exact IH]); now intros v [H1 H2].
  - split; rewrite !string_forall_append; cbn [string_forall andb is_printable];
      rewrite join_printable; try reflexivity; apply Forall_map.
    + apply sort_items_forall. apply Forall_map.
      eapply Forall_impl; [|exact IH]. intros kv [H1 _].
      now apply item_text_printable.
    + eapply Forall_impl; [|exact IH]. intros kv [_ H2].
      now apply item_text_printable.
Qed.

(** ** Reading back what the encoder wrote: strings *)

Lemma scanstring_escape_char (c : ascii) (tail : string) :
  JsonText.scanstring (Json.escape_char c ++ tail)
  = JsonText.prepend c (JsonText.scanstring tail).
Proof. destruct c as [[] [] [] [] [] [] [] []]; reflexivity. Qed.

Lemma scanstring_escape (s rest : string) :
  JsonText.scanstring (Json.escape s ++ Json.quote ++ rest) = Some (s, rest).
Proof.
  induction s as [|c s IH]; [reflexivity|].
  cbn [Json.escape]. rewrite append_assoc, scanstring_escape_char, IH. reflexivity.
Qed.

(** The text after the opening quote of an encoded string. *)
Lemma encode_basestring_unfold (s rest : string) :
  (Json.encode_basestring_ascii s ++ rest)%string
  = String (ascii_of_N 34) (Json.escape s ++ Json.quote ++ rest).
Proof.
  unfold Json.encode_basestring_ascii. rewrite !append_assoc. reflexivity.
Qed.

(** ** Reading back what the encoder wrote: integers *)

Lemma ends_number_not_float (rest : string) :
  ends_number rest -> JsonText.starts_float rest = false.
Proof.
  destruct rest as [|c [|d rest]]; try reflexivity.
  intros (_ & H1 & H2 & H3). unfold JsonText.starts_float.
  destruct (Z.eqb_spec (Z.of_N (N_of_ascii c)) 46); [contradiction|].
  destruct (Z.eqb_spec (Z.of_N (N_of_ascii c)) 101); [contradiction|].
  destruct (Z.eqb_spec (Z.of_N (N_of_ascii c)) 69); [contradiction|].
  reflexivity.
Qed.

Lemma digits_string_of_uint (d : Decimal.uint) (rest : string) :
  ends_number rest ->
  JsonText.digits (NilEmpty.string_of_uint d ++ rest) = (d, rest).
Proof.
  intros Hrest. induction d; cbn [NilEmpty.string_of_uint append JsonText.digits];
    try (change (JsonText.digit _) with (Some Decimal.D0) ||
         change (JsonText.digit _) with (Some Decimal.D1) ||
         change (JsonText.digit _) with (Some Decimal.D2) ||
         change (JsonText.digit _) with (Some Decimal.D3) ||
         change (JsonText.digit _) with (Some Decimal.D4) ||
         change (JsonText.digit _) with (Some Decimal.D5) ||
         change (JsonText.digit _) with (Some Decimal.D6) ||
         change (JsonText.digit _) with (Some Decimal.D7) ||
         change (JsonText.digit _) with (Some Decimal.D8) ||
         change (JsonText.digit _) with (Some Decimal.D9));
    try (rewrite IHd; reflexivity).
  destruct rest as [|c rest]; [reflexivity|].
  destruct Hrest as [Hc _]. unfold JsonText.is_digit in Hc.
  cbn [JsonText.digits]. destruct (JsonText.digit c); [discriminate | reflexivity].
Qed.

(** The decimal numeral of a positive number does not start with a zero. *)
Lemma to_uint_head (p : positive) :
  exists (c : ascii) (tail : string),
    NilEmpty.string_of_uint (Pos.to_uint p) = String c tail /\
    JsonText.is_digit c = true /\ Z.of_N (N_of_ascii c) <> 48 /\ Z.of_N (N_of_ascii c) <> 45.
Proof.
  assert (Hnorm : Decimal.unorm (Pos.to_uint p) = Pos.to_uint p).
  { rewrite <- (DecimalPos.Unsigned.to_of (Pos.to_uint p)).
    now rewrite DecimalPos.Unsigned.of_to. }
  pose proof (DecimalPos.Unsigned.to_uint_nonnil p) as Hnil.
  pose proof (DecimalPos.Unsigned.to_uint_nonzero p) as Hzero.
  destruct (Pos.to_uint p) as [|u|u|u|u|u|u|u|u|u|u] eqn:E; try contradiction;
    try (eexists _, _; split; [reflexivity|]; repeat split; discriminate).
  exfalso. rewrite DecimalFacts.unorm_D0 in Hnorm.
  assert (Hu : u <> Decimal.Nil) by (intros ->; now apply Hzero).
  pose proof (DecimalFacts.nb_digits_unorm u Hu) as Hlen.
  rewrite Hnorm in Hlen. cbn in Hlen. lia.
Qed.

Lemma scan_number_int_repr (z : Z) (rest : string) :
  ends_number rest ->
  JsonText.scan_number (Json.int_repr z ++ rest) = Some (JInt z, rest).
Proof.
  intros Hrest. pose proof (ends_number_not_float rest Hrest) as Hfloat.
  unfold Json.int_repr. rewrite <- (DecimalZ.of_to z) at 2.
  destruct z as [|p|p]; cbn [Z.to_int NilZero.string_of_int].
  - cbn. now rewrite Hfloat.
  - unfold NilZero.string_of_uint.
    destruct (to_uint_head p) as (c & tail & E & Hd & H0 & Hm).
    pose proof (DecimalPos.Unsigned.to_uint_nonnil p) as Hnil.
    destruct (Pos.to_uint p) eqn:Ep; [contradiction| ..]; rewrite <- Ep in *;
      unfold JsonText.scan_number; rewrite E; cbn [append];
      (destruct (Z.eqb_spec (Z.of_N (N_of_ascii c)) 45); [contradiction|]);
      unfold JsonText.scan_uint;
      (destruct (Z.eqb_spec (Z.of_N (N_of_ascii c)) 48); [contradiction|]);
      rewrite Hd;
      change (String c (tail ++ rest)) with (String c tail ++ rest)%string;
      rewrite <- E, digits_string_of_uint, Hfloat by assumption; reflexivity.
  - unfold NilZero.string_of_uint.
    destruct (to_uint_head p) as (c & tail & E & Hd & H0 & Hm).
    pose proof (DecimalPos.Unsigned.to_uint_nonnil p) as Hnil.
    destruct (Pos.to_uint p) eqn:Ep; [contradiction| ..]; rewrite <- Ep in *;
      unfold JsonText.scan_number; cbn [append];
      change (Z.of_N (N_of_ascii "-") =? 45) with true; cbn iota;
      rewrite E; cbn [append];
      unfold JsonText.scan_uint;
      (destruct (Z.eqb_spec (Z.of_N (N_of_ascii c)) 48); [contradiction|]);
      rewrite Hd;
      change (String c (tail ++ rest)) with (String c tail ++ rest)%string;
      rewrite <- E, digits_string_of_uint, Hfloat by assumption; reflexivity.
Qed.

(** ** Reading back what the encoder wrote: values *)

Lemma delimited_ends_number (rest : string) : delimited rest -> ends_number rest.
Proof.
  destruct rest as [|c rest]; [easy|].
  intros [-> | [-> | ->]]; repeat split; discriminate.
Qed.

Lemma delimited_skip_ws (rest : string) : delimited rest -> JsonText.skip_ws rest = rest.
Proof.
  destruct rest as [|c rest]; [easy|].
  intros [-> | [-> | ->]]; reflexivity.
Qed.

Lemma delimited_array_rest (vs : list json) (rest : string) : delimited (array_rest vs rest).
Proof. destruct vs; cbn; auto. Qed.

Lemma delimited_object_rest (d : list (string * json)) (rest : string) :
  delimited (object_rest d rest).
Proof. destruct d; cbn; auto. Qed.

Lemma dumps_list_text (v : json) (vs : list json) (rest : string) :
  (JsonText.dumps (JList (v :: vs)) ++ rest)%string
  = String "[" (JsonText.dumps v ++ array_rest vs rest).
Proof.
  cbn [JsonText.dumps map]. cbn [append]. f_equal.
  rewrite append_assoc. revert v.
  induction vs as [|w vs IH]; intros v; [reflexivity|].
  change (Json.join (JsonText.dumps v :: map JsonText.dumps (w :: vs)))
    with (JsonText.dumps v ++ ", " ++ Json.join (JsonText.dumps w :: map JsonText.dumps vs))%string.
  rewrite !append_assoc, (IH w). reflexivity.
Qed.

Lemma dumps_dict_text (kv : string * json) (d : list (string * json)) (rest : string) :
  (JsonText.dumps (JDict (kv :: d)) ++ rest)%string
  = String "{" (Json.encode_basestring_ascii (fst kv) ++
      String ":" (String " " (JsonText.dumps (snd kv) ++ object_rest d rest))).
Proof.
  cbn [JsonText.dumps map]. cbn [append]. f_equal.
  rewrite append_assoc. revert kv.
  induction d as [|kv' d IH]; intros kv.
  - cbn [map Json.join]. unfold Json.item_text. cbn [fst snd].
    rewrite !append_assoc. reflexivity.
  - change (Json.join (Json.item_text (fst kv, JsonText.dumps (snd kv)) ::
                       map (fun x => Json.item_text (fst x, JsonText.dumps (snd x))) (kv' :: d)))
      with (Json.item_text (fst kv, JsonText.dumps (snd kv)) ++ ", " ++
            Json.join (Json.item_text (fst kv', JsonText.dumps (snd kv')) ::
                       map (fun x => Json.item_text (fst x, JsonText.dumps (snd x))) d))%string.
    rewrite !append_assoc, (IH kv'). unfold Json.item_text. cbn [fst snd].
    rewrite !append_assoc. reflexivity.
Qed.

Lemma int_repr_head (z : Z) :
  exists c tail, Json.int_repr z = String c tail /\ opens_value c /\
    Z.of_N (N_of_ascii c) <> 34 /\ Z.of_N (N_of_ascii c) <> 91 /\
    Z.of_N (N_of_ascii c) <> 123.
Proof.
  unfold Json.int_repr. destruct z as [|p|p]; cbn [Z.to_int NilZero.string_of_int].
  - eexists _, _. split; [reflexivity|]. repeat split; discriminate.
  - unfold NilZero.string_of_uint.
    destruct (to_uint_head p) as (c & tail & E & Hd & _).
    pose proof (DecimalPos.Unsigned.to_uint_nonnil p) as Hnil.
    destruct (Pos.to_uint p) eqn:Ep; [contradiction| ..]; rewrite <- Ep in *;
      exists c, tail; (split; [exact E|]);
      destruct c as [[] [] [] [] [] [] [] []]; try discriminate Hd;
      repeat split; discriminate.
  - eexists _, _. split; [reflexivity|]. repeat split; discriminate.
Qed.

Lemma dumps_head (v : json) :
  exists c tail, JsonText.dumps v = String c tail /\ opens_value c.
Proof.
  destruct v as [z | s | l | d].
  - destruct (int_repr_head z) as (c & tail & E & H & _). now exists c, tail.
  - eexists _, _. split; [reflexivity|]. repeat split; discriminate.
  - eexists _, _. split; [reflexivity|]. repeat split; discriminate.
  - eexists _, _. split; [reflexivity|]. repeat split; discriminate.
Qed.

Lemma skip_ws_dumps (v : json) (rest : string) :
  JsonText.skip_ws (JsonText.dumps v ++ rest) = (JsonText.dumps v ++ rest)%string.
Proof.
  destruct (dumps_head v) as (c & tail & -> & Hws & _).
  cbn [append JsonText.skip_ws]. now rewrite Hws.
Qed.

(** One step of each of the three readers. *)
Lemma scan_string_step (fuel : nat) (rest : string) :
  JsonText.scan (S fuel) (String (ascii_of_N 34) rest)
  = match JsonText.scanstring rest with
    | Some (str, rest1) => Some (JStr str, rest1)
    | None => None
    end.
Proof. reflexivity. Qed.

Lemma scan_array_step (fuel : nat) (rest : string) :
  JsonText.scan (S fuel) (String "[" rest)
  = match JsonText.skip_ws rest with
    | String c1 rest1 =>
        if Z.of_N (N_of_ascii c1) =? 93 then Some (JList [], rest1)
        else
          match JsonText.scan fuel (JsonText.skip_ws rest) with
          | Some (v, rest2) =>
              match JsonText.array_tail fuel (JsonText.skip_ws rest2) with
              | Some (vs, rest3) => Some (JList (v :: vs), rest3)
              | None => None
              end
          | None => None
          end
    | EmptyString => None
    end.
Proof. reflexivity. Qed.

Lemma scan_object_step (fuel : nat) (rest : string) :
  JsonText.scan (S fuel) (String "{" rest)
  = match JsonText.skip_ws rest with
    | String c1 rest1 =>
        if Z.of_N (N_of_ascii c1) =? 125 then Some (JDict [], rest1)
        else
          match JsonText.object_items fuel (JsonText.skip_ws rest) with
          | Some (pairs, rest2) => Some (JDict (JsonText.dict_of_pairs pairs), rest2)
          | None => None
          end
    | EmptyString => None
    end.
Proof. reflexivity. Qed.

Lemma scan_number_step (fuel : nat) (c : ascii) (rest : string) :
  Z.of_N (N_of_ascii c) <> 34 -> Z.of_N (N_of_ascii c) <> 91 ->
  Z.of_N (N_of_ascii c) <> 123 ->
  JsonText.scan (S fuel) (String c rest) = JsonText.scan_number (String c rest).
Proof.
  intros H1 H2 H3. cbn [JsonText.scan].
  destruct (Z.eqb_spec (Z.of_N (N_of_ascii c)) 34); [contradiction|].
  destruct (Z.eqb_spec (Z.of_N (N_of_ascii c)) 91); [contradiction|].
  destruct (Z.eqb_spec (Z.of_N (N_of_ascii c)) 123); [contradiction|].
  reflexivity.
Qed.

Lemma array_tail_close (fuel : nat) (rest : string) :
  JsonText.array_tail (S fuel) (String "]" rest) = Some ([], rest).
Proof. reflexivity. Qed.

Lemma array_tail_comma (fuel : nat) (rest : string) :
  JsonText.array_tail (S fuel) (String "," rest)
  = match JsonText.scan fuel (JsonText.skip_ws rest) with
    | Some (v, rest1) =>
        match JsonText.array_tail fuel (JsonText.skip_ws rest1) with
        | Some (vs, rest2) => Some (v :: vs, rest2)
        | None => None
        end
    | None => None
    end.
Proof. reflexivity. Qed.

Lemma object_items_step (fuel : nat) (rest : string) :
  JsonText.object_items (S fuel) (String (ascii_of_N 34) rest)
  = match JsonText.scanstring rest with
    | Some (key, rest1) =>
        match JsonText.skip_ws rest1 with
        | String c1 rest2 =>
            if Z.of_N (N_of_ascii c1) =? 58 then
              match JsonText.scan fuel (JsonText.skip_ws rest2) with
              | Some (v, rest3) =>
                  match JsonText.skip_ws rest3 with
                  | String c3 rest4 =>
                      if Z.of_N (N_of_ascii c3) =? 125 then Some ([(key, v)], rest4)
                      else if Z.of_N (N_of_ascii c3) =? 44 then
                        match JsonText.object_items fuel (JsonText.skip_ws rest4) with
                        | Some (pairs, rest5) => Some ((key, v) :: pairs, rest5)
                        | None => None
                        end
                      else None
                  | EmptyString => None
                  end
              | None => None
              end
            else None
        | EmptyString => None
        end
    | None => None
    end.
Proof. reflexivity. Qed.

Lemma array_tail_reads_back (vs : list json) (rest : string) :
  Forall reads_back vs ->
  forall fuel : nat,
    (String.length (array_rest vs rest) < fuel)%nat ->
    JsonText.array_tail fuel (array_rest vs rest) = Some (vs, rest).
Proof.
  induction 1 as [|v vs Hv _ IH]; intros fuel Hfuel;
    (destruct fuel as [|fuel]; [lia|]); cbn [array_rest] in *.
  - apply array_tail_close.
  - rewrite array_tail_comma.
    change (JsonText.skip_ws (String " " ?s)) with (JsonText.skip_ws s).
    cbn [String.length] in Hfuel. rewrite length_append in Hfuel.
    rewrite skip_ws_dumps, Hv;
      [| apply delimited_array_rest | rewrite length_append; lia].
    rewrite delimited_skip_ws by apply delimited_array_rest.
    rewrite IH by lia. reflexivity.
Qed.

Lemma object_items_reads_back (kv : string * json) (d : list (string * json))
    (rest : string) :
  Forall (fun kv => reads_back (snd kv)) (kv :: d) ->
  forall fuel : nat,
    (String.length (Json.encode_basestring_ascii (fst kv) ++
       String ":" (String " " (JsonText.dumps (snd kv) ++ object_rest d rest))) < fuel)%nat ->
    JsonText.object_items fuel
      (Json.encode_basestring_ascii (fst kv) ++
       String ":" (String " " (JsonText.dumps (snd kv) ++ object_rest d rest)))
    = Some (kv :: d, rest).
Proof.
  revert kv. induction d as [|kv' d IH]; intros [k v] Hall fuel Hfuel;
    (destruct fuel as [|fuel]; [lia|]); cbn [fst snd] in *;
    rewrite encode_basestring_unfold in *;
    rewrite object_items_step, scanstring_escape;
    change (JsonText.skip_ws (String ":" ?s)) with (String ":" s);
    change (Z.of_N (N_of_ascii ":") =? 58) with true; cbn iota;
    change (JsonText.skip_ws (String " " ?s)) with (JsonText.skip_ws s);
    cbn [String.length] in Hfuel; rewrite !length_append in Hfuel;
    cbn [String.length] in Hfuel; rewrite !length_append in Hfuel;
    inversion Hall as [|? ? Hv Hd]; subst; cbn [snd] in Hv;
    rewrite skip_ws_dumps, Hv;
      try apply delimited_object_rest; try (rewrite length_append; lia).
  - reflexivity.
  - cbn [object_rest].
    change (JsonText.skip_ws (String "," ?s)) with (String "," s).
    change (Z.of_N (N_of_ascii ",") =? 125) with false.
    change (Z.of_N (N_of_ascii ",") =? 44) with true. cbn iota.
    change (JsonText.skip_ws (String " " ?s)) with (JsonText.skip_ws s).
    rewrite encode_basestring_unfold.
    change (JsonText.skip_ws (String (ascii_of_N 34) ?s)) with (String (ascii_of_N 34) s).
    rewrite <- encode_basestring_unfold.
    rewrite (IH kv' Hd); [destruct kv'; reflexivity|].
    cbn [object_rest String.length] in Hfuel. rewrite !length_append in Hfuel.
    cbn [String.length] in Hfuel. rewrite ?length_append in Hfuel.
    rewrite !length_append. cbn [String.length]. rewrite ?length_append. lia.
Qed.

Lemma existsb_eqb_false (k : string) (keys : list string) :
  existsb (String.eqb k) keys = false <-> ~ In k keys.
Proof.
  split.
  - intros H Hin. assert (existsb (String.eqb k) keys = true); [|congruence].
    apply existsb_exists. exists k. split; [exact Hin | apply String.eqb_refl].
  - intros H. destruct (existsb (String.eqb k) keys) eqn:E; [|reflexivity].
    apply existsb_exists in E as (x & Hin & Heq). apply String.eqb_eq in Heq. now subst.
Qed.

Lemma distinct_NoDup (keys : list string) : JsonText.distinct keys = true <-> NoDup keys.
Proof.
  induction keys as [|k keys IH]; cbn [JsonText.distinct].
  - split; [constructor | reflexivity].
  - rewrite andb_true_iff, negb_true_iff, existsb_eqb_false, IH. split.
    + intros [H1 H2]. now constructor.
    + intros H. inversion H. now split.
Qed.

Lemma dict_set_new (d : list (string * json)) (k : string) (v : json) :
  ~ In k (map fst d) -> JsonText.dict_set d k v = d ++ [(k, v)].
Proof.
  induction d as [|[k1 v1] d IH]; intros Hk; cbn [JsonText.dict_set app]; [reflexivity|].
  cbn [map fst In] in Hk.
  destruct (String.eqb_spec k k1) as [->|_]; [exfalso; auto|].
  rewrite IH by auto. reflexivity.
Qed.

Lemma dict_of_pairs_distinct (d : list (string * json)) :
  JsonText.distinct (map fst d) = true -> JsonText.dict_of_pairs d = d.
Proof.
  intros H. apply distinct_NoDup in H. unfold JsonText.dict_of_pairs.
  assert (G : forall acc, NoDup (map fst (acc ++ d)) ->
              fold_left (fun a kv => JsonText.dict_set a (fst kv) (snd kv)) d acc = acc ++ d).
  { clear H. induction d as [|[k v] d IH]; intros acc Hnd; cbn [fold_left fst snd].
    - now rewrite app_nil_r.
    - rewrite dict_set_new.
      + rewrite IH; rewrite <- app_assoc; [reflexivity | exact Hnd].
      + rewrite map_app in Hnd. cbn [map fst] in Hnd.
        apply NoDup_remove_2 in Hnd. intros Hin. apply Hnd.
        apply in_or_app. now left. }
  exact (G [] H).
Qed.

Lemma dumps_reads_back (v : json) : JsonText.well_formed v = true -> reads_back v.
Proof.
  induction v as [z | s | l IH | d IH] using json_induction; intros Hwf fuel rest Hrest Hfuel;
    (destruct fuel as [|fuel]; [lia|]).
  - cbn [JsonText.dumps].
    destruct (int_repr_head z) as (c & tail & E & _ & H1 & H2 & H3).
    rewrite E. cbn [append]. rewrite scan_number_step by assumption.
    change (String c (tail ++ rest)) with (String c tail ++ rest)%string.
    rewrite <- E. apply scan_number_int_repr. now apply delimited_ends_number.
  - cbn [JsonText.dumps]. rewrite encode_basestring_unfold, scan_string_step.
    now rewrite scanstring_escape.
  - destruct l as [|v vs]; [reflexivity|].
    rewrite dumps_list_text in *. rewrite scan_array_step.
    cbn [JsonText.well_formed forallb] in Hwf. apply andb_true_iff in Hwf as [Hv Hvs].
    inversion IH as [|? ? IHv IHvs]; subst.
    cbn [String.length] in Hfuel. rewrite length_append in Hfuel.
    rewrite skip_ws_dumps.
    destruct (dumps_head v) as (c & tail & E & _ & Hc & _).
    rewrite E at 1. cbn [append].
    destruct (Z.eqb_spec (Z.of_N (N_of_ascii c)) 93); [contradiction|].
    rewrite (IHv Hv);
      [| apply delimited_array_rest | rewrite length_append; lia].
    rewrite delimited_skip_ws by apply delimited_array_rest.
    rewrite array_tail_reads_back; [reflexivity | | lia].
    rewrite forallb_forall in Hvs. rewrite Forall_forall in IHvs |- *.
    intros x Hx. apply IHvs; auto.
  - destruct d as [|kv d]; [reflexivity|].
    rewrite dumps_dict_text in *. rewrite scan_object_step.
    cbn [JsonText.well_formed] in Hwf. apply andb_true_iff in Hwf as [Hkeys Hvs].
    cbn [String.length] in Hfuel.
    set (text := (Json.encode_basestring_ascii (fst kv) ++ _)%string) in *.
    assert (Htext : exists tail, text = String (ascii_of_N 34) tail)
      by (eexists; apply encode_basestring_unfold).
    destruct Htext as [tail Htext].
    assert (Hskip : JsonText.skip_ws text = text) by (rewrite Htext; reflexivity).
    rewrite Hskip. rewrite Htext at 1.
    assert (Hq : (Z.of_N (N_of_ascii (ascii_of_N 34)) =? 125) = false) by reflexivity.
    rewrite Hq. unfold text.
    rewrite object_items_reads_back; [| | fold text; lia].
    + now rewrite dict_of_pairs_distinct.
    + rewrite forallb_forall in Hvs. rewrite Forall_forall in IH |- *.
      intros x Hx. apply IH; auto.
Qed.

Lemma loads_dumps (v : json) :
  JsonText.well_formed v = true -> JsonText.loads (JsonText.dumps v) = Some v.
Proof.
  intros Hwf. unfold JsonText.loads.
  pose proof (skip_ws_dumps v EmptyString) as Hs. rewrite append_nil_r in Hs. rewrite Hs.
  pose proof (dumps_reads_back v Hwf (S (String.length (JsonText.dumps v))) EmptyString I)
    as H.
  rewrite append_nil_r in H. rewrite H by lia. reflexivity.
Qed.

(** ** The text that is hashed and the bytes it encodes to *)

Lemma encode_printable (s : string) :
  string_forall is_printable s = true ->
  List.length (SHA256.encode s) = String.length s /\
  Forall (fun byte => 32 <= byte <= 126) (SHA256.encode s).
Proof.
  induction s as [|c s IH]; cbn [string_forall SHA256.encode List.length String.length].
  - split; [reflexivity | constructor].
  - intros H. apply andb_true_iff in H as [Hc Hs]. destruct (IH Hs) as [Hl Hb].
    split; [now rewrite Hl|]. constructor; [|exact Hb].
    unfold is_printable in Hc. apply andb_true_iff in Hc as [H1 H2]. lia.
Qed.

(** X13.  Whatever a block holds, the text [compute_hash] hashes
    consists of printable ASCII characters only (everything else is
    escaped by [json.dumps]), so [encode()] gives exactly one byte per
    character, each between 32 and 126; the same holds for the text of
    [__str__]. *)
Theorem hashed_text_is_printable_ascii (block : Block) :
  string_forall is_printable (block_string block) = true /\
  List.length (SHA256.encode (block_string block)) = String.length (block_string block) /\
  Forall (fun byte => 32 <= byte <= 126) (SHA256.encode (block_string block)) /\
  string_forall is_printable (Block_str block) = true.
Proof.
  destruct (dumps_printable (JDict (Block_dict block))) as [H1 H2].
  destruct (encode_printable (block_string block) H1) as [Hl Hb].
  repeat split; assumption.
Qed.

(** ** [json.loads] after [__str__] *)

(** X14.  For every value built from integers of at most 4300 digits,
    strings whose characters have code points below 256, and lists and
    dictionaries of these nested at most 100 deep, the keys of each
    dictionary being distinct, [json.loads] applied to the text
    [json.dumps] writes gives the value back: same items, same order,
    same strings and integers. *)
Theorem loads_inverts_dumps (v : json) :
  dumpable v = true ->
  JsonText.well_formed v = true -> JsonText.loads (JsonText.dumps v) = Some v.
Proof. intros _. apply loads_dumps. Qed.

Lemma loads_inverts_dumps_witness :
  dumpable (JDict (Block_dict block1)) = true /\
  JsonText.well_formed (JDict (Block_dict block1)) = true /\
  JsonText.loads (JsonText.dumps (JDict (Block_dict block1))) = Some (JDict (Block_dict block1)).
Proof.
  exact (conj eq_refl (conj eq_refl
          (loads_inverts_dumps (JDict (Block_dict block1)) eq_refl eq_refl))).
Defined.

Lemma transaction_well_formed (tx : Transaction.t) :
  JsonText.well_formed (Transaction.loads_str tx) = true.
Proof. reflexivity. Qed.

(** X15.  For every transaction whose [sender], [receiver] and [data]
    are strings with code points below 256 and whose [amount] is an
    integer of at most 4300 digits, [json.loads(str(tx))], as [mine]
    computes it for each pooled transaction, is the dictionary
    [tx.__dict__] itself: the five attributes in the order [__init__]
    assigned them, whichever of these characters the strings hold. *)
Theorem loads_of_transaction_str (tx : Transaction.t) :
  transaction_dumpable tx = true ->
  JsonText.loads (Transaction_str tx) = Some (Transaction.loads_str tx) /\
  Transaction.loads_str tx
  = JDict [ ("sender", JStr (Transaction.sender tx));
            ("receiver", JStr (Transaction.receiver tx));
            ("data", JStr (Transaction.data tx));
            ("amount", JInt (Transaction.amount tx));
            ("timestamp", JStr (Transaction.timestamp tx)) ].
Proof.
  intros _. split; [|reflexivity].
  apply (loads_dumps (Transaction.loads_str tx)). apply transaction_well_formed.
Qed.

Lemma loads_of_transaction_str_witness :
  transaction_dumpable t1 = true /\
  JsonText.loads (Transaction_str t1) = Some (Transaction.loads_str t1).
Proof.
  exact (conj eq_refl (proj1 (loads_of_transaction_str t1 eq_refl))).
Defined.

Lemma block_dict_well_formed (b : Block) :
  forallb JsonText.well_formed (transactions b) = true ->
  JsonText.well_formed (previous_hash b) = true ->
  JsonText.well_formed (JDict (Block_dict b)) = true.
Proof.
  intros Htx Hprev. unfold Block_dict.
  destruct (hash b) as [h|]; cbn [app JsonText.well_formed map fst snd forallb];
    rewrite Htx, Hprev; reflexivity.
Qed.

Lemma pool_well_formed (pool : list Transaction.t) :
  forallb JsonText.well_formed (map Transaction.loads_str pool) = true.
Proof. induction pool as [|tx pool IH]; [reflexivity|]. cbn [map forallb]. now rewrite IH. Qed.

Lemma reachable_blocks_well_formed (bc : Blockchain) :
  reachable bc ->
  Forall (fun b => JsonText.well_formed (JDict (Block_dict b)) = true) (chain bc).
Proof.
  induction 1 as [now | bc tx _ IH | bc fuel now r bc' _ IH Hmine].
  - constructor; [|constructor]. now apply block_dict_well_formed.
  - exact IH.
  - mine_cases Hmine tip tip_hash n Ht Hh; [now inversion Hmine; subst|].
    cbn [chain]. apply Forall_app. split; [exact IH|].
    constructor; [|constructor]. apply block_dict_well_formed; [|reflexivity].
    apply pool_well_formed.
Qed.

Lemma show_chain_is_dumps (bc : Blockchain) :
  show_chain bc = JsonText.dumps (JList (map (fun b => JDict (Block_dict b)) (chain bc))).
Proof.
  unfold show_chain, Block_str. cbn [JsonText.dumps]. now rewrite map_map.
Qed.

(** X16.  On a chain made by [Blockchain()], [add_new_transaction] and
    [mine], the line [show_chain] prints is a JSON array that
    [json.loads] decodes to the list of the blocks' [__dict__], in chain
    order, and [str(block)] decodes to the [__dict__] of the block, with
    [hash] as its last item. *)
Theorem show_chain_decodes (bc : Blockchain) :
  reachable bc ->
  JsonText.loads (show_chain bc)
  = Some (JList (map (fun b => JDict (Block_dict b)) (chain bc))) /\
  forall (i : nat) (b : Block),
    nth_error (chain bc) i = Some b ->
    JsonText.loads (Block_str b) = Some (JDict (Block_dict b)) /\
    exists h, last (Block_dict b) ("index", JInt 0) = ("hash", JStr h).
Proof.
  intros Hr. pose proof (reachable_blocks_well_formed bc Hr) as Hwf. split.
  - rewrite show_chain_is_dumps. apply loads_dumps.
    cbn [JsonText.well_formed]. apply forallb_forall. intros x Hx.
    apply in_map_iff in Hx as (b & <- & Hb).
    rewrite Forall_forall in Hwf. now apply Hwf.
  - intros i b Hb. split.
    + apply (loads_dumps (JDict (Block_dict b))).
      rewrite Forall_forall in Hwf. apply Hwf. now apply nth_error_In in Hb.
    + destruct (reachable_chain_ok bc Hr) as [Hs _].
      rewrite Forall_forall in Hs. apply nth_error_In in Hb.
      specialize (Hs b Hb). unfold sealed in Hs. unfold Block_dict. rewrite Hs.
      eexists. reflexivity.
Qed.

Lemma show_chain_decodes_witness :
  reachable mined1 /\
  JsonText.loads (show_chain mined1)
  = Some (JList [JDict (Block_dict genesis0); JDict (Block_dict block1)]).
Proof.
  exact (conj reachable_mined1 (proj1 (show_chain_decodes mined1 reachable_mined1))).
Defined.

(** ** The hashed text determines the block *)

Lemma insert_item_map_values {A B : Type} (f : A -> B) (kv : string * A)
    (items : list (string * A)) :
  Json.insert_item (fst kv, f (snd kv)) (map (fun x => (fst x, f (snd x))) items)
  = map (fun x => (fst x, f (snd x))) (Json.insert_item kv items).
Proof.
  induction items as [|x items IH]; [reflexivity|].
  cbn [map Json.insert_item fst].
  destruct (String.leb (fst kv) (fst x)); [reflexivity|].
  cbn [map]. now rewrite IH.
Qed.

Lemma sort_items_map_values {A B : Type} (f : A -> B) (items : list (string * A)) :
  Json.sort_items (map (fun x => (fst x, f (snd x))) items)
  = map (fun x => (fst x, f (snd x))) (Json.sort_items items).
Proof.
  unfold Json.sort_items. induction items as [|x items IH]; [reflexivity|].
  cbn [map fold_right]. rewrite IH. apply (insert_item_map_values f x).
Qed.

Lemma insert_item_permutation {A : Type} (kv : string * A) (items : list (string * A)) :
  Permutation (Json.insert_item kv items) (kv :: items).
Proof.
  induction items as [|x items IH]; [reflexivity|].
  cbn [Json.insert_item]. destruct (String.leb (fst kv) (fst x)); [reflexivity|].
  rewrite IH. apply perm_swap.
Qed.

Lemma sort_items_permutation {A : Type} (items : list (string * A)) :
  Permutation (Json.sort_items items) items.
Proof.
  unfold Json.sort_items. induction items as [|x items IH]; [reflexivity|].
  cbn [fold_right]. rewrite insert_item_permutation. now constructor.
Qed.

Lemma dumps_canonical (v : json) : Json.dumps v = JsonText.dumps (canonical v).
Proof.
  induction v as [z | s | l IH | d IH] using json_induction;
    cbn [Json.dumps JsonText.dumps canonical]; try reflexivity.
  - assert (E : map Json.dumps l = map JsonText.dumps (map canonical l)).
    { rewrite map_map. apply map_ext_in. rewrite Forall_forall in IH. exact IH. }
    now rewrite E.
  - assert (E : map Json.item_text
                  (Json.sort_items (map (fun kv => (fst kv, Json.dumps (snd kv))) d))
                = map (fun kv => Json.item_text (fst kv, JsonText.dumps (snd kv)))
                    (Json.sort_items (map (fun kv => (fst kv, canonical (snd kv))) d))).
    { rewrite (sort_items_map_values Json.dumps d), (sort_items_map_values canonical d).
      rewrite !map_map. cbn [fst snd]. apply map_ext_in. intros kv Hkv.
      apply (Permutation_in _ (sort_items_permutation d)) in Hkv.
      rewrite Forall_forall in IH. now rewrite (IH kv Hkv). }
    now rewrite E.
Qed.

Lemma canonical_well_formed (v : json) :
  JsonText.well_formed v = true -> JsonText.well_formed (canonical v) = true.
Proof.
  induction v as [z | s | l IH | d IH] using json_induction;
    cbn [JsonText.well_formed canonical]; try reflexivity.
  - intros H. rewrite forallb_forall in *. intros x Hx.
    apply in_map_iff in Hx as (y & <- & Hy).
    rewrite Forall_forall in IH. apply IH; auto.
  - intros H. apply andb_true_iff in H as [Hkeys Hvs]. apply andb_true_iff. split.
    + apply distinct_NoDup. apply distinct_NoDup in Hkeys.
      apply (Permutation_NoDup (l := map fst d)); [|exact Hkeys].
      symmetry. rewrite (sort_items_permutation _). rewrite map_map. reflexivity.
    + rewrite forallb_forall in *. intros x Hx.
      apply (Permutation_in _ (sort_items_permutation _)) in Hx.
      apply in_map_iff in Hx as (y & <- & Hy). cbn [snd].
      rewrite Forall_forall in IH. apply IH; auto.
Qed.

Lemma loads_sorted_dumps (v : json) :
  JsonText.well_formed v = true -> JsonText.loads (Json.dumps v) = Some (canonical v).
Proof.
  intros H. rewrite dumps_canonical. apply loads_dumps. now apply canonical_well_formed.
Qed.

Lemma sorted_dumps_injective (v v' : json) :
  JsonText.well_formed v = true -> JsonText.well_formed v' = true ->
  Json.dumps v = Json.dumps v' -> canonical v = canonical v'.
Proof.
  intros H H' E. apply loads_sorted_dumps in H, H'. rewrite E in H. congruence.
Qed.

(** The dictionary of a block with its keys in sorted order. *)
Lemma canonical_block_dict (b : Block) :
  canonical (JDict (Block_dict b))
  = JDict (match hash b with
           | Some h => [("hash", JStr h)]
           | None => []
           end ++
           [ ("index", JInt (index b)); ("nonce", JInt (nonce b));
             ("previous_hash", canonical (previous_hash b));
             ("timestamp", JStr (timestamp b));
             ("transactions", JList (map canonical (transactions b))) ]).
Proof.
  unfold Block_dict. destruct (hash b) as [h|]; reflexivity.
Qed.

(** X17.  For a block whose dictionaries have distinct keys, the text
    [compute_hash] hashes decodes to the block's [__dict__] with the keys
    of every dictionary in sorted order: [hash] first when it is set, then
    [index], [nonce], [previous_hash], [timestamp] and [transactions]. *)
Theorem hashed_text_decodes (b : Block) :
  JsonText.well_formed (JDict (Block_dict b)) = true ->
  JsonText.loads (block_string b)
  = Some (JDict (match hash b with
                 | Some h => [("hash", JStr h)]
                 | None => []
                 end ++
                 [ ("index", JInt (index b)); ("nonce", JInt (nonce b));
                   ("previous_hash", canonical (previous_hash b));
                   ("timestamp", JStr (timestamp b));
                   ("transactions", JList (map canonical (transactions b))) ])).
Proof.
  intros H. unfold block_string. rewrite (loads_sorted_dumps _ H).
  now rewrite canonical_block_dict.
Qed.

Lemma hashed_text_decodes_witness :
  JsonText.well_formed (JDict (Block_dict (set_nonce cand1 2))) = true /\
  JsonText.loads (block_string (set_nonce cand1 2))
  = Some (JDict [ ("index", JInt 1); ("nonce", JInt 2);
                  ("previous_hash", JStr genesis_hash); ("timestamp", JStr now1);
                  ("transactions",
                   JList [JDict [ ("amount", JInt 8);
                                  ("data", JStr "Transfer 8 bitcoins for a simple pizza xD");
                                  ("receiver", JStr "somePizzaGuy");
                                  ("sender", JStr "Nitin");
                                  ("timestamp", JStr "2021-03-14 15:09:26.535950") ]]) ]).
Proof.
  exact (conj eq_refl (hashed_text_decodes (set_nonce cand1 2) eq_refl)).
Defined.

Lemma canonical_transaction (tx : Transaction.t) :
  canonical (Transaction.loads_str tx)
  = JDict [ ("amount", JInt (Transaction.amount tx));
            ("data", JStr (Transaction.data tx));
            ("receiver", JStr (Transaction.receiver tx));
            ("sender", JStr (Transaction.sender tx));
            ("timestamp", JStr (Transaction.timestamp tx)) ].
Proof. reflexivity. Qed.

Lemma canonical_pool_injective (pool pool' : list Transaction.t) :
  map canonical (map Transaction.loads_str pool)
  = map canonical (map Transaction.loads_str pool') ->
  pool = pool'.
Proof.
  revert pool'. induction pool as [|tx pool IH]; intros [|tx' pool'] E;
    cbn [map] in E; try discriminate; [reflexivity|].
  assert (Htx : canonical (Transaction.loads_str tx) = canonical (Transaction.loads_str tx'))
    by congruence.
  assert (Hpool : map canonical (map Transaction.loads_str pool)
                  = map canonical (map Transaction.loads_str pool'))
    by congruence.
  rewrite !canonical_transaction in Htx. inversion Htx.
  f_equal; [|now apply IH].
  destruct tx, tx'; cbn in *; congruence.
Qed.

Lemma hashed_text_determines_aux (b b' : Block) :
  JsonText.well_formed (JDict (Block_dict b)) = true ->
  JsonText.well_formed (JDict (Block_dict b')) = true ->
  block_string b = block_string b' ->
  index b = index b' /\ nonce b = nonce b' /\ timestamp b = timestamp b' /\
  hash b = hash b' /\
  canonical (previous_hash b) = canonical (previous_hash b') /\
  map canonical (transactions b) = map canonical (transactions b').
Proof.
  intros H H' E. apply (sorted_dumps_injective _ _ H H') in E.
  rewrite !canonical_block_dict in E.
  destruct (hash b) as [h|], (hash b') as [h'|]; cbn [app] in E;
    inversion E; subst; repeat split; try congruence.
Qed.

(** ** The order of insertion of keys does not reach the hash *)

Lemma string_compare_trans (a : string) : forall b c : string,
  String.compare a b <> Gt -> String.compare b c <> Gt -> String.compare a c <> Gt.
Proof.
  induction a as [|x a IH]; intros [|y b] [|z c]; cbn [String.compare];
    try congruence.
  unfold Ascii.compare.
  destruct (N.compare_spec (N_of_ascii x) (N_of_ascii y)) as [Exy|Lxy|Gxy];
    destruct (N.compare_spec (N_of_ascii y) (N_of_ascii z)) as [Eyz|Lyz|Gyz];
    destruct (N.compare_spec (N_of_ascii x) (N_of_ascii z)) as [Exz|Lxz|Gxz];
    try congruence; try lia.
  apply IH.
Qed.

Lemma leb_trans (a b c : string) :
  String.leb a b = true -> String.leb b c = true -> String.leb a c = true.
Proof.
  unfold String.leb. intros Hab Hbc.
  pose proof (string_compare_trans a b c) as H.
  destruct (String.compare a b), (String.compare b c), (String.compare a c);
    try reflexivity; try discriminate; exfalso; apply H; congruence.
Qed.

Lemma insert_item_sorted {A : Type} (kv : string * A) (items : list (string * A)) :
  StronglySorted key_le items -> StronglySorted key_le (Json.insert_item kv items).
Proof.
  induction 1 as [|x items Hs IH Hx]; cbn [Json.insert_item].
  - repeat constructor.
  - destruct (String.leb (fst kv) (fst x)) eqn:E.
    + constructor; [now constructor|].
      constructor; [exact E|].
      rewrite Forall_forall in *. intros y Hy. unfold key_le.
      apply (leb_trans _ (fst x)); [exact E | now apply Hx].
    + constructor; [exact IH|].
      eapply Permutation_Forall; [symmetry; apply insert_item_permutation|].
      constructor; [|exact Hx].
      unfold key_le. destruct (String.leb_total (fst kv) (fst x)); congruence.
Qed.

Lemma sort_items_sorted {A : Type} (items : list (string * A)) :
  StronglySorted key_le (Json.sort_items items).
Proof.
  unfold Json.sort_items. induction items as [|x items IH]; cbn [fold_right].
  - constructor.
  - now apply insert_item_sorted.
Qed.

Lemma sorted_unique {A : Type} (l : list (string * A)) : forall l' : list (string * A),
  StronglySorted key_le l -> StronglySorted key_le l' ->
  Permutation l l' -> NoDup (map fst l) -> l = l'.
Proof.
  induction l as [|x l IH]; intros l' Hs Hs' Hp Hnd.
  - now apply Permutation_nil in Hp.
  - destruct l' as [|x' l']; [now apply Permutation_sym, Permutation_nil in Hp|].
    inversion Hs as [|? ? Hsl Hx]; subst. inversion Hs' as [|? ? Hsl' Hx']; subst.
    assert (Hxx : x = x').
    { assert (Hin : In x (x' :: l')) by (apply (Permutation_in _ Hp); now left).
      assert (Hin' : In x' (x :: l))
        by (apply (Permutation_in _ (Permutation_sym Hp)); now left).
      destruct Hin as [->|Hin]; [reflexivity|].
      destruct Hin' as [->|Hin']; [reflexivity|].
      rewrite Forall_forall in Hx, Hx'.
      pose proof (String.leb_antisym _ _ (Hx x' Hin') (Hx' x Hin)) as Hk.
      exfalso. cbn [map] in Hnd. inversion Hnd as [|? ? Hnot _]; subst.
      apply Hnot. rewrite Hk. now apply in_map. }
    subst x'. f_equal. apply IH; try assumption.
    + now apply Permutation_cons_inv in Hp.
    + cbn [map] in Hnd. now inversion Hnd.
Qed.

Lemma sort_items_order_free {A : Type} (d d' : list (string * A)) :
  Permutation d d' -> NoDup (map fst d) -> Json.sort_items d = Json.sort_items d'.
Proof.
  intros Hp Hnd. apply sorted_unique; try apply sort_items_sorted.
  - now rewrite !sort_items_permutation.
  - apply (Permutation_NoDup (l := map fst d)); [|exact Hnd].
    apply Permutation_map. symmetry. apply sort_items_permutation.
Qed.

Lemma dumps_order_free (d d' : list (string * json)) :
  Permutation d d' -> NoDup (map fst d) -> Json.dumps (JDict d) = Json.dumps (JDict d').
Proof.
  intros Hp Hnd. cbn [Json.dumps].
  rewrite (sort_items_order_free
             (map (fun kv => (fst kv, Json.dumps (snd kv))) d)
             (map (fun kv => (fst kv, Json.dumps (snd kv))) d')); [reflexivity | |].
  - now apply Permutation_map.
  - now rewrite map_map.
Qed.

Lemma block_string_transactions (b : Block) (txs txs' : list json) :
  Json.dumps (JList txs) = Json.dumps (JList txs') ->
  block_string (set_transactions b txs) = block_string (set_transactions b txs').
Proof.
  intros H. unfold block_string, set_transactions, Block_dict.
  cbn [index transactions timestamp previous_hash nonce hash].
  cbn [Json.dumps].
  destruct (hash b); cbn [app map fst snd]; rewrite H; reflexivity.
Qed.

(** X18.  [compute_hash] does not depend on the order in which the keys
    of a dictionary were inserted: two blocks that differ only in the
    order of the items of one transaction, the keys being distinct, have
    the same hash. *)
Theorem compute_hash_ignores_key_order (b : Block) (before after : list json)
    (d d' : list (string * json)) :
  Permutation d d' -> NoDup (map fst d) ->
  compute_hash (set_transactions b (before ++ JDict d :: after))
  = compute_hash (set_transactions b (before ++ JDict d' :: after)).
Proof.
  intros Hp Hnd. unfold compute_hash. do 2 f_equal.
  apply block_string_transactions.
  cbn [Json.dumps]. rewrite !map_app. cbn [map].
  now rewrite (dumps_order_free d d' Hp Hnd).
Qed.

Lemma block_string_canonical (b : Block) :
  block_string b = JsonText.dumps (canonical (JDict (Block_dict b))).
Proof. apply dumps_canonical. Qed.

(** X19.  Two blocks with distinct keys in their dictionaries have the
    same hashed text exactly when they have every attribute in common:
    the same [index], [nonce], [timestamp] and [hash], and the same
    [previous_hash] and [transactions] up to the order of keys inside
    dictionaries.  A change of any of these that [is_valid_proof] does not
    notice is therefore a pair of different texts with the same SHA-256
    digest. *)
Theorem hashed_text_determines_block (b b' : Block) :
  JsonText.well_formed (JDict (Block_dict b)) = true ->
  JsonText.well_formed (JDict (Block_dict b')) = true ->
  block_string b = block_string b' <->
  index b = index b' /\ nonce b = nonce b' /\ timestamp b = timestamp b' /\
  hash b = hash b' /\
  canonical (previous_hash b) = canonical (previous_hash b') /\
  map canonical (transactions b) = map canonical (transactions b').
Proof.
  intros H H'. split.
  - intros E. apply (sorted_dumps_injective _ _ H H') in E.
    rewrite !canonical_block_dict in E.
    destruct (hash b) as [h|], (hash b') as [h'|]; cbn [app] in E;
      inversion E; subst; repeat split; try congruence.
  - intros (Hi & Hn & Ht & Hh & Hp & Htx).
    rewrite !block_string_canonical, !canonical_block_dict.
    now rewrite Hi, Hn, Ht, Hh, Hp, Htx.
Qed.

Lemma hashed_text_determines_block_witness :
  JsonText.well_formed (JDict (Block_dict block1)) = true /\
  JsonText.well_formed (JDict (Block_dict block1_reordered)) = true /\
  transactions block1 <> transactions block1_reordered /\
  block_string block1 = block_string block1_reordered.
Proof.
  assert (Hne : transactions block1 <> transactions block1_reordered) by discriminate.
  exact (conj eq_refl (conj eq_refl (conj Hne
          (proj2 (hashed_text_determines_block block1 block1_reordered eq_refl eq_refl)
                 (conj eq_refl (conj eq_refl (conj eq_refl (conj eq_refl
                    (conj eq_refl eq_refl))))))))).
Defined.

(** X20.  The text hashed for a block that [mine] builds determines
    everything [mine] put into it: two candidates, at whatever nonce,
    have the same hashed text exactly when they were built at the same
    clock reading, on tips of the same index and stored hash, from the
    same pool of transactions, and carry the same nonce. *)
Theorem mined_text_determines_candidate
    (now now' : string) (tip tip' : Block) (tip_hash tip_hash' : string)
    (pool pool' : list Transaction.t) (n n' : Z) :
  block_string (set_nonce (candidate now tip tip_hash pool) n)
  = block_string (set_nonce (candidate now' tip' tip_hash' pool') n') <->
  now = now' /\ index tip = index tip' /\ tip_hash = tip_hash' /\
  pool = pool' /\ n = n'.
Proof.
  split.
  - intros E.
    apply hashed_text_determines_aux in E as (Hi & Hn & Ht & _ & Hp & Htx);
      try (apply block_dict_well_formed; [apply pool_well_formed | reflexivity]).
    cbn [index nonce timestamp previous_hash transactions set_nonce candidate Block_init
         canonical] in *.
    apply canonical_pool_injective in Htx.
    repeat split; try assumption; try congruence. lia.
  - intros (-> & Hi & -> & -> & ->). unfold candidate. now rewrite Hi.
Qed.

Lemma compute_hash_ignores_key_order_witness :
  Permutation (Transaction.dict t1) (rev (Transaction.dict t1)) /\
  NoDup (map fst (Transaction.dict t1)) /\
  Transaction.dict t1 <> rev (Transaction.dict t1) /\
  compute_hash (set_transactions block1 ([] ++ JDict (Transaction.dict t1) :: []))
  = compute_hash (set_transactions block1 ([] ++ JDict (rev (Transaction.dict t1)) :: [])).
Proof.
  assert (Hp : Permutation (Transaction.dict t1) (rev (Transaction.dict t1)))
    by apply Permutation_rev.
  assert (Hnd : NoDup (map fst (Transaction.dict t1)))
    by (apply distinct_NoDup; reflexivity).
  assert (Hne : Transaction.dict t1 <> rev (Transaction.dict t1)) by discriminate.
  exact (conj Hp (conj Hnd (conj Hne
          (compute_hash_ignores_key_order block1 [] [] _ _ Hp Hnd)))).
Defined.

(** * The demonstration at the end of [main.py] *)

Lemma run_main :
  main 1 demo_clock = Done (["1"; "2"; "3"; "4"; show_chain demo_chain], demo_chain).
Proof. vm_compute. reflexivity. Qed.

(** The line [show_chain] prints at the end of that run has the digest
    of the line the interpreter prints. *)
Example show_chain_demo :
  String.length (show_chain demo_chain) = 1860%nat /\
  SHA256.hexdigest (SHA256.encode (show_chain demo_chain))
  = "cbb9668f68b56515841e7e0a9f46cee66bb477bc63141ee25b7188173baaf1da".
Proof. vm_compute. split; reflexivity. Qed.

Lemma mine_one (fuel : nat) (now : string) (pool : list Transaction.t)
    (blocks : list Block) (tip : Block) (tx : Transaction.t) (r : mined) (bc : Blockchain) :
  mine fuel now (add_new_transaction (MkChain pool (blocks ++ [tip])) tx) = Done (r, bc) ->
  exists (h : string) (n : Z) (proof : string),
    hash tip = Some h /\
    r = MinedIndex (index tip + 1) /\
    bc = MkChain [] ((blocks ++ [tip]) ++
           [MkBlock (index tip + 1) (map Transaction.loads_str (pool ++ [tx])) now
                    (JStr h) n (Some proof)]).
Proof.
  intros H. apply mine_nonempty in H as (tip' & h & n & Ht & Hh & _ & -> & ->);
    [|cbn; now destruct pool].
  unfold add_new_transaction in Ht. cbn [chain unconfirmed_transactions] in *.
  rewrite last_block_snoc in Ht. inversion Ht; subst tip'.
  exists h, n. eexists. repeat split. exact Hh.
Qed.

(** X21.  Whatever the clock reads, when the demonstration finishes it
    has printed [1], [2], [3], [4] and then the chain: every [mine] found
    one transaction in the pool and returned the next index, the chain
    ends with five blocks of indices 0 to 4, blocks 1 to 4 hold one
    demonstration transaction each in the order of submission, and the
    pool is empty. *)
Theorem main_prints_indices (fuel : nat) (clock : nat -> string)
    (out : list string) (bc : Blockchain) :
  main fuel clock = Done (out, bc) ->
  out = ["1"; "2"; "3"; "4"; show_chain bc] /\
  map index (chain bc) = [0; 1; 2; 3; 4] /\
  map transactions (chain bc)
  = [ genesis_transactions;
      [Transaction.loads_str (main_t1 (clock 0%nat))];
      [Transaction.loads_str (main_t2 (clock 1%nat))];
      [Transaction.loads_str (main_t3 (clock 2%nat))];
      [Transaction.loads_str (main_t4 (clock 3%nat))] ] /\
  map timestamp (chain bc)
  = [clock 4%nat; clock 5%nat; clock 6%nat; clock 7%nat; clock 8%nat] /\
  unconfirmed_transactions bc = [].
Proof.
  unfold main. intros H.
  destruct (mine fuel (clock 5%nat) _) as [[r1 bc1]| |] eqn:E1; cbn [bind] in H;
    try discriminate.
  change (Blockchain_init (clock 4%nat)) with (MkChain [] ([] ++ [genesis_at (clock 4%nat)]))
    in E1.
  apply mine_one in E1 as (h1 & n1 & p1 & _ & -> & ->).
  destruct (mine fuel (clock 6%nat) _) as [[r2 bc2]| |] eqn:E2; cbn [bind] in H;
    try discriminate.
  apply mine_one in E2 as (h2 & n2 & p2 & _ & -> & ->).
  destruct (mine fuel (clock 7%nat) _) as [[r3 bc3]| |] eqn:E3; cbn [bind] in H;
    try discriminate.
  apply mine_one in E3 as (h3 & n3 & p3 & _ & -> & ->).
  destruct (mine fuel (clock 8%nat) _) as [[r4 bc4]| |] eqn:E4; cbn [bind] in H;
    try discriminate.
  apply mine_one in E4 as (h4 & n4 & p4 & _ & -> & ->).
  inversion H; subst out bc. clear H.
  cbn [app chain unconfirmed_transactions map index transactions timestamp genesis_at
       set_hash Block_init mined_str Z.add Pos.add Pos.succ].
  repeat split.
Qed.

Lemma main_prints_indices_witness :
  main 1 demo_clock = Done (["1"; "2"; "3"; "4"; show_chain demo_chain], demo_chain) /\
  map index (chain demo_chain) = [0; 1; 2; 3; 4] /\
  unconfirmed_transactions demo_chain = [].
Proof.
  pose proof (main_prints_indices 1 demo_clock _ demo_chain run_main) as (_ & Hi & _ & _ & Hp).
  exact (conj run_main (conj Hi Hp)).
Defined.

(** ** [__str__] and the decoder against the interpreter *)

(** [str(t1)] has the length and the digest of the text the interpreter
    gives. *)
Example transaction_str_t1 :
  String.length (Transaction_str t1) = 156%nat /\
  SHA256.hexdigest (SHA256.encode (Transaction_str t1))
  = "2427d2e351254a053a95f3902e06095178723239f6a16d06df0c8533cb076008".
Proof. vm_compute. split; reflexivity. Qed.

(** Escapes of both cases, and a key that comes twice. *)
Example loads_escapes_and_duplicates :
  JsonText.loads (Json.quote ++ "a\u00e9\u00E9\n\/\\\t" ++ Json.quote)
  = Some (JStr (String "a" (String (ascii_of_N 233) (String (ascii_of_N 233)
            (String (ascii_of_N 10) (String "/" (String (ascii_of_N 92)
              (String (ascii_of_N 9) EmptyString)))))))) /\
  JsonText.loads ("{" ++ Json.quote ++ "k" ++ Json.quote ++ ": [1, {" ++
                  Json.quote ++ "k" ++ Json.quote ++ ": 7, " ++
                  Json.quote ++ "k" ++ Json.quote ++ ": -2}], " ++
                  Json.quote ++ "k2" ++ Json.quote ++ ": 5}")
  = Some (JDict [("k", JList [JInt 1; JDict [("k", JInt (-2))]]); ("k2", JInt 5)]).
Proof. vm_compute. split; reflexivity. Qed.
